(** * chess-analytics: the PGN record parser and the classifiers

    A shallow embedding of [analyze_chess_games.py]: the line scanner of
    [parse_pgn], the two regular expressions it uses, the four
    classifiers and the per-game derivation done in the body of [main].

    Python [str] values are modelled by [string]; a character is a code
    point in the range U+0000..U+00FF, and the character classes below
    are Python's own on that range.  Python [int] is modelled by [Z];
    [int()] on a string refuses, as the interpreter does by default, a
    literal of more than 4300 digits.  A raised [ValueError] is
    modelled by [None]. *)

From Stdlib Require Import ZArith String Ascii List Bool Lia.
From stdpp Require Import gmap strings.

Local Open Scope string_scope.
Local Open Scope Z_scope.

(** ** Python string primitives *)

Module PyStr.

Definition code (c : ascii) : N := N_of_ascii c.

(** The double-quote character and a text between double quotes. *)
Definition dquote : ascii := ascii_of_N 34.
Definition quoted (s : string) : string :=
  String dquote (s +:+ String dquote EmptyString).

Definition in_range (lo hi : N) (c : ascii) : bool :=
  ((lo <=? code c) && (code c <=? hi))%N.

(** [str.isspace] on one character; also the class [\s] of [re]. *)
Definition isspace (c : ascii) : bool :=
  in_range 9 13 c || in_range 28 32 c || in_range 133 133 c || in_range 160 160 c.

(** [str.isdecimal] on one character; also the class [\d] of [re]. *)
Definition isdecimal (c : ascii) : bool := in_range 48 57 c.

(** The class [\w] of [re]: alphanumeric characters and the underscore. *)
Definition isword (c : ascii) : bool :=
  in_range 48 57 c || in_range 65 90 c || in_range 95 95 c || in_range 97 122 c
  || in_range 170 170 c || in_range 178 179 c || in_range 181 181 c
  || in_range 185 186 c || in_range 188 190 c || in_range 192 214 c
  || in_range 216 246 c || in_range 248 255 c.

(** What [.] matches without [re.DOTALL]: anything but a line feed. *)
Definition isdot (c : ascii) : bool := negb (in_range 10 10 c).

Definition lower_char (c : ascii) : ascii :=
  if in_range 65 90 c || in_range 192 214 c || in_range 216 222 c
  then ascii_of_N (code c + 32)
  else c.

(** [s.lower()] *)
Fixpoint lower (s : string) : string :=
  match s with
  | EmptyString => EmptyString
  | String c s' => String (lower_char c) (lower s')
  end.

Definition is_empty (s : string) : bool :=
  match s with EmptyString => true | String _ _ => false end.

Fixpoint lstrip_with (sp : ascii -> bool) (s : string) : string :=
  match s with
  | EmptyString => EmptyString
  | String c s' => if sp c then lstrip_with sp s' else s
  end.

Fixpoint rstrip_with (sp : ascii -> bool) (s : string) : string :=
  match s with
  | EmptyString => EmptyString
  | String c s' =>
      let r := rstrip_with sp s' in
      if sp c && is_empty r then EmptyString else String c r
  end.

Definition strip_with (sp : ascii -> bool) (s : string) : string :=
  rstrip_with sp (lstrip_with sp s).

(** [s.strip()] *)
Definition strip (s : string) : string := strip_with isspace s.

(** [s.startswith(p)] *)
Fixpoint startswith (s p : string) {struct p} : bool :=
  match p with
  | EmptyString => true
  | String a p' =>
      match s with
      | EmptyString => false
      | String b s' => Ascii.eqb a b && startswith s' p'
      end
  end.

(** [s.endswith(p)]: some suffix of [s] is [p]. *)
Fixpoint endswith (s p : string) : bool :=
  String.eqb s p ||
  match s with
  | EmptyString => false
  | String _ s' => endswith s' p
  end.

(** [sub in s]: [sub] starts at some position of [s]. *)
Fixpoint contains (s sub : string) : bool :=
  startswith s sub ||
  match s with
  | EmptyString => false
  | String _ s' => contains s' sub
  end.

(** [s[:n]] for a non-negative [n]. *)
Fixpoint slice_to (n : nat) (s : string) : string :=
  match n, s with
  | S n', String c s' => String c (slice_to n' s')
  | _, _ => EmptyString
  end.

Definition digit_value (c : ascii) : Z := Z.of_N (code c) - 48.

(** The digits of an [int()] literal in base ten: decimal digits, with
    single underscores allowed between two digits. *)
Fixpoint int_digits (acc : Z) (after_digit : bool) (s : string) : option Z :=
  match s with
  | EmptyString => if after_digit then Some acc else None
  | String c s' =>
      if isdecimal c then int_digits (acc * 10 + digit_value c) true s'
      else if Ascii.eqb c "_" then
        (if after_digit then int_digits acc false s' else None)
      else None
  end.

(** The white space that [int()] skips around a literal. *)
Definition int_space (c : ascii) : bool :=
  in_range 9 13 c || in_range 32 32 c || in_range 133 133 c || in_range 160 160 c.

(** The default of [sys.get_int_max_str_digits()]: the largest number
    of digits that [int()] accepts in a string. *)
Definition max_str_digits : nat := 4300.

(** The number of decimal digits of a literal; underscores, the sign
    and the surrounding white space do not count, leading zeros do. *)
Fixpoint count_digits (s : string) : nat :=
  match s with
  | EmptyString => O
  | String c s' => if isdecimal c then S (count_digits s') else count_digits s'
  end.

(** [int(s)] for a [str] argument; [None] stands for [ValueError], which
    is raised for a text that is not an integer literal and for a
    literal of more than [max_str_digits] digits. *)
Definition int (s : string) : option Z :=
  let literal := strip_with int_space s in
  value ← match literal with
          | String "-" r => Z.opp <$> int_digits 0 false r
          | String "+" r => int_digits 0 false r
          | r => int_digits 0 false r
          end;
  if (count_digits literal <=? max_str_digits)%nat then Some value else None.

End PyStr.

(** ** The two regular expressions, as backtracking matchers

    A matcher takes the text still to be read and a continuation that
    receives what the matcher consumed and the rest of the text; a
    continuation that fails makes a greedy quantifier give back one
    character and try again, which is how [re] backtracks. *)

Module Re.
Import PyStr.

Section Matchers.
Context {A : Type}.

(** One literal character. *)
Definition lit (c : ascii) (k : string -> option A) (s : string) : option A :=
  match s with
  | String b s' => if Ascii.eqb c b then k s' else None
  | EmptyString => None
  end.

(** One character of a class. *)
Definition one (p : ascii -> bool) (k : string -> option A) (s : string) : option A :=
  match s with
  | String b s' => if p b then k s' else None
  | EmptyString => None
  end.

(** [p*], greedy: the longest run first, then shorter ones. *)
Fixpoint star (p : ascii -> bool) (k : string -> string -> option A)
         (s : string) : option A :=
  match s with
  | String b s' =>
      if p b then
        match star p (fun got rest => k (String b got) rest) s' with
        | Some r => Some r
        | None => k EmptyString s
        end
      else k EmptyString s
  | EmptyString => k EmptyString EmptyString
  end.

(** [p+], greedy. *)
Definition plus (p : ascii -> bool) (k : string -> string -> option A)
           (s : string) : option A :=
  match s with
  | String b s' =>
      if p b then star p (fun got rest => k (String b got) rest) s' else None
  | EmptyString => None
  end.
End Matchers.

(** The [re.match] of [parse_pgn] on a line: an opening bracket, group
    one = one or more word characters, one or more white-space
    characters, a double quote, group two = as many characters other
    than a line feed as possible, a double quote, a closing bracket.
    It gives the two groups of a match at the start of [line]; the
    pattern is not anchored at the end. *)
Definition tag_pair (line : string) : option (string * string) :=
  lit "[" (
    plus isword (fun key =>
      plus isspace (fun _ =>
        lit dquote (
          star isdot (fun value =>
            lit dquote (
              lit "]" (fun _ => Some (key, value)))))))) line.

(** One attempt of the move-number pattern (group = one or more
    decimal digits, then a period, then one white-space character) at
    the start of [s]: the group and the text after the match. *)
Definition move_number_at (s : string) : option (string * string) :=
  plus isdecimal (fun digits =>
    lit "." (
      one isspace (fun rest => Some (digits, rest)))) s.

(** [re.findall] with the move-number pattern: the groups of the
    matches from left to right, the search resuming where the previous
    match ended and otherwise one character further. *)
Fixpoint findall_from (fuel : nat) (s : string) : list string :=
  match fuel with
  | O => []
  | S fuel' =>
      match move_number_at s with
      | Some (digits, rest) => digits :: findall_from fuel' rest
      | None =>
          match s with
          | String _ s' => findall_from fuel' s'
          | EmptyString => []
          end
      end
  end.

Definition findall (s : string) : list string :=
  findall_from (S (String.length s)) s.

End Re.

Import PyStr Re.

(** ** The program *)

(** [ECO_OPENINGS]: the dict literal, as the list of its items in
    insertion order (the order in which [.items()] yields them). *)
Definition ECO_OPENINGS : list (string * string) :=
  [ ("A00", "Uncommon Opening"); ("A01", "Nimzo-Larsen Attack"); ("A02", "Bird's Opening");
    ("A04", "Reti Opening"); ("A10", "English Opening"); ("A20", "English Opening");
    ("A28", "English Opening: Four Knights"); ("A40", "Queen's Pawn Game"); ("A45", "Trompowsky Attack");
    ("A46", "Indian Game"); ("A48", "London System");
    ("B00", "Uncommon King's Pawn Opening"); ("B01", "Scandinavian Defense");
    ("B02", "Alekhine's Defense"); ("B07", "Pirc Defense"); ("B10", "Caro-Kann Defense");
    ("B12", "Caro-Kann Defense"); ("B20", "Sicilian Defense"); ("B21", "Sicilian: Smith-Morra Gambit");
    ("B22", "Sicilian: Alapin"); ("B27", "Sicilian Defense"); ("B30", "Sicilian Defense");
    ("B40", "Sicilian Defense"); ("B44", "Sicilian: Taimanov");
    ("B50", "Sicilian Defense"); ("B90", "Sicilian: Najdorf");
    ("C00", "French Defense"); ("C02", "French: Advance Variation");
    ("C20", "King's Pawn Game"); ("C21", "Center Game"); ("C23", "Bishop's Opening");
    ("C25", "Vienna Game"); ("C28", "Vienna Game");
    ("C40", "King's Knight Opening"); ("C42", "Petrov's Defense"); ("C44", "Scotch Game");
    ("C45", "Scotch Game"); ("C46", "Three Knights Game"); ("C47", "Four Knights Game");
    ("C50", "Italian Game"); ("C55", "Italian Game: Two Knights");
    ("C60", "Ruy Lopez"); ("C65", "Ruy Lopez: Berlin Defense");
    ("D00", "Queen's Pawn Game"); ("D02", "London System"); ("D06", "Queen's Gambit");
    ("D10", "Slav Defense"); ("D11", "Slav Defense"); ("D20", "Queen's Gambit Accepted");
    ("D23", "Queen's Gambit Accepted"); ("D30", "Queen's Gambit Declined");
    ("D31", "Queen's Gambit Declined"); ("D35", "Queen's Gambit Declined");
    ("D37", "Queen's Gambit Declined"); ("D55", "Queen's Gambit Declined");
    ("E00", "Indian Defense"); ("E04", "Catalan Opening");
    ("E10", "Indian Defense"); ("E20", "Nimzo-Indian Defense"); ("E24", "Nimzo-Indian Defense");
    ("E60", "King's Indian Defense"); ("E70", "King's Indian Defense") ].

(** *** [parse_pgn] *)

(** The three locals of [parse_pgn] that the loop over the lines updates. *)
Record scan_state := {
  headers : gmap string string;
  moves_text : string;
  in_moves : bool
}.

Definition scan_init : scan_state :=
  {| headers := ∅; moves_text := ""; in_moves := false |}.

(** The body of the [for line in f] loop. *)
Definition scan_line (st : scan_state) (raw : string) : scan_state :=
  let line := strip raw in
  if startswith line "[" && endswith line "]" then
    match tag_pair line with
    | Some (key, value) =>
        {| headers := <[key := value]> (headers st);
           moves_text := moves_text st;
           in_moves := in_moves st |}
    | None => st
    end
  else if String.eqb line "" then
    if bool_decide (headers st ≠ ∅) then
      {| headers := headers st; moves_text := moves_text st; in_moves := true |}
    else st
  else if in_moves st then
    {| headers := headers st;
       moves_text := moves_text st +:+ " " +:+ line;
       in_moves := in_moves st |}
  else st.

Definition scan_lines (lines : list string) : scan_state :=
  fold_left scan_line lines scan_init.

(** [int(move_numbers[-1]) if move_numbers else 0] *)
Definition last_move_number (move_numbers : list string) : option Z :=
  match last move_numbers with
  | Some digits => int digits
  | None => Some 0
  end.

(** [parse_pgn], on the lines that iterating over the opened file yields. *)
Definition parse_pgn (lines : list string) : option (gmap string string * Z) :=
  let st := scan_lines lines in
  let move_numbers := findall (moves_text st) in
  move_count ← last_move_number move_numbers;
  Some (headers st, move_count).

(** *** The classifiers *)

Definition classify_game_length (move_count : Z) : string :=
  if move_count <? 20 then "Quick"
  else if move_count <=? 40 then "Medium"
  else "Long".

(** A loop [for key, value in items: if test(key): return value]: the
    value of the first item, in the order of the list, whose key passes
    the test. *)
Fixpoint first_where {B : Type} (test : string -> bool)
         (items : list (string * B)) : option B :=
  match items with
  | [] => None
  | (key, value) :: items' =>
      if test key then Some value else first_where test items'
  end.

(** The inner [for key, value in ECO_OPENINGS.items()] loop with its
    early [return], the test being [key.startswith(prefix)]. *)
Definition first_startswith (items : list (string * string)) (prefix : string)
  : option string :=
  first_where (fun key => startswith key prefix) items.

(** The outer [for length in [2, 1]] loop; falling out of it reaches the
    final [return "Unknown"]. *)
Fixpoint prefix_fallback (lengths : list nat) (eco_code : string) : string :=
  match lengths with
  | [] => "Unknown"
  | length :: lengths' =>
      match first_startswith ECO_OPENINGS (slice_to length eco_code) with
      | Some value => value
      | None => prefix_fallback lengths' eco_code
      end
  end.

(** [ECO_OPENINGS[eco_code]] when [eco_code in ECO_OPENINGS]. *)
Fixpoint dict_get (items : list (string * string)) (k : string) : option string :=
  match items with
  | [] => None
  | (key, value) :: items' =>
      if String.eqb key k then Some value else dict_get items' k
  end.

(** The argument is [headers.get("ECO")]: [None] or a string. *)
Definition get_opening_name (eco_code : option string) : string :=
  match eco_code with
  | None => "Unknown"
  | Some EmptyString => "Unknown"
  | Some code =>
      match dict_get ECO_OPENINGS code with
      | Some name => name
      | None => prefix_fallback [2%nat; 1%nat] code
      end
  end.

Definition classify_loss_quality (folder : string) (move_count : Z) : string :=
  if negb (String.eqb folder "loss") then "N/A"
  else if move_count <? 15 then "Quick Loss"
  else if move_count <? 30 then "Standard Loss"
  else "Well-Fought Loss".

(** The argument is [headers.get("Termination")]: [None] or a string. *)
Definition classify_termination (termination : option string) : string :=
  match termination with
  | None => "Unknown"
  | Some EmptyString => "Unknown"
  | Some text =>
      let term_lower := lower text in
      if contains term_lower "checkmate" then "Checkmate"
      else if contains term_lower "resignation" then "Resignation"
      else if contains term_lower "timeout" then "Timeout"
      else if contains term_lower "abandoned" then "Abandoned"
      else if contains term_lower "agreement" then "Draw by Agreement"
      else if contains term_lower "repetition" then "Draw by Repetition"
      else if contains term_lower "stalemate" then "Stalemate"
      else if contains term_lower "insufficient" then "Insufficient Material"
      else "Other"
  end.

(** *** The per-game part of [main] *)

(** [headers.get("White", "").lower()] compared with [username.lower()]. *)
Definition color_played (hdrs : gmap string string) (username : string) : string :=
  let white_user := lower (default "" (hdrs !! "White")) in
  if String.eqb white_user (lower username) then "White" else "Black".

(** [int(headers.get(key, 0))]: [int(0)] is [0], a string goes through
    [int()] and may raise. *)
Definition elo (hdrs : gmap string string) (key : string) : option Z :=
  match hdrs !! key with
  | None => Some 0
  | Some text => int text
  end.

(** The [try] block of [main]; [default 0] is its [except ValueError]. *)
Definition rating_diff (hdrs : gmap string string) (color : string) : Z :=
  default 0 (
    white_elo ← elo hdrs "WhiteElo";
    black_elo ← elo hdrs "BlackElo";
    Some (if String.eqb color "White" then black_elo - white_elo
          else white_elo - black_elo)).

(** The keys of the dict comprehension that copies the tags over. *)
Definition copied_tags : list string :=
  [ "Event"; "Site"; "Date"; "White"; "Black"; "Result";
    "WhiteElo"; "BlackElo"; "TimeControl"; "ECO"; "Termination"; "Link" ].

(** The [game] dict that [main] builds for one file. *)
Record game := {
  Filename : string;
  Folder : string;
  ColorPlayed : string;
  RatingDiff : Z;
  MoveCount : Z;
  GameLength : string;
  OpeningName : string;
  LossQuality : string;
  TerminationType : string;
  Tags : list (string * string)
}.

(** The body of the loop of [main] for one file [file] of the directory
    [folder]; [lines] are the lines of that file. *)
Definition analyze_file (username folder file : string) (lines : list string)
  : option game :=
  '(hdrs, move_count) ← parse_pgn lines;
  let color := color_played hdrs username in
  Some {| Filename := file;
          Folder := folder;
          ColorPlayed := color;
          RatingDiff := rating_diff hdrs color;
          MoveCount := move_count;
          GameLength := classify_game_length move_count;
          OpeningName := get_opening_name (hdrs !! "ECO");
          LossQuality := classify_loss_quality folder move_count;
          TerminationType := classify_termination (hdrs !! "Termination");
          Tags := map (fun k => (k, default "" (hdrs !! k))) copied_tags |}.

(** The game record of the specification's end-to-end example: four
    tag lines, a blank line and one line of movetext. *)
Definition bob_game : list string :=
  [ "[White " +:+ quoted "bob" +:+ "]";
    "[Black " +:+ quoted "alice" +:+ "]";
    "[WhiteElo " +:+ quoted "1500" +:+ "]";
    "[BlackElo " +:+ quoted "1600" +:+ "]";
    "";
    "1. e4 e5 2. Nf3 Nc6 3. Bb5 1-0" ].

(** With the line feed that iterating over a text file leaves at the end
    of each line. *)
Definition with_line_feeds (lines : list string) : list string :=
  map (fun l => l +:+ String (ascii_of_N 10) EmptyString) lines.

(** *** The rest of [main]: which files are read *)

(** [os.path.join(path, b)] for one more component, and for several, as
    [posixpath] defines it. *)
Definition path_join2 (path b : string) : string :=
  if startswith b "/" then b
  else if is_empty path || endswith path "/" then path +:+ b
  else path +:+ "/" +:+ b.

Definition path_join (a : string) (p : list string) : string :=
  fold_left path_join2 p a.

(** [os.path.basename(p)], as [posixpath] defines it: what follows the
    last slash. *)
Fixpoint basename (p : string) : string :=
  match p with
  | EmptyString => EmptyString
  | String _ p' => if contains p "/" then basename p' else p
  end.

(** [file.lower().endswith(".pgn")] *)
Definition is_pgn_file (file : string) : bool := endswith (lower file) ".pgn".

(** The two nested loops of [main] over what [os.walk] yields: for each
    directory its path [root] and its files, here with the lines of
    each file; the result is [games_data]. *)
Fixpoint analyze_files (username root : string)
         (files : list (string * list string)) : option (list game) :=
  match files with
  | [] => Some []
  | (file, lines) :: files' =>
      if is_pgn_file file then
        g ← analyze_file username (basename root) file lines;
        gs ← analyze_files username root files';
        Some (g :: gs)
      else analyze_files username root files'
  end.

Fixpoint analyze_walk (username : string)
         (walk : list (string * list (string * list string)))
  : option (list game) :=
  match walk with
  | [] => Some []
  | (root, files) :: walk' =>
      gs ← analyze_files username root files;
      gs' ← analyze_walk username walk';
      Some (gs ++ gs')%list
  end.

(** ** The downloader, [fetch_chess_games.py]

    A game is the JSON value that the service returned for it.  A float
    is represented by whether it is zero or not, which is all that the
    code below can observe of it.  What is printed is left out, and the
    files are a map from paths to contents: opening a file for writing
    is taken to succeed. *)

Module Fetch.

#[warnings="-register-all"]
Inductive json :=
| JNull
| JBool (b : bool)
| JInt (n : Z)
| JFloat (nonzero : bool)
| JStr (s : string)
| JArr (l : list json)
| JObj (m : gmap string json).

Inductive exn := KeyError | TypeError | AttributeError.

Inductive result (A : Type) :=
| Ok (a : A)
| Raise (e : exn).
Arguments Ok {A} a.
Arguments Raise {A} e.

Definition bind {A B : Type} (r : result A) (k : A -> result B) : result B :=
  match r with
  | Ok a => k a
  | Raise e => Raise e
  end.

Notation "x <- r ;; k" := (bind r (fun x => k))
  (at level 100, r at next level, right associativity).

(** [v[key]] with a string key. *)
Definition subscript (v : json) (key : string) : result json :=
  match v with
  | JObj m =>
      match m !! key with
      | Some x => Ok x
      | None => Raise KeyError
      end
  | _ => Raise TypeError
  end.

(** [v.get(key, dflt)] *)
Definition get (v : json) (key : string) (dflt : json) : result json :=
  match v with
  | JObj m => Ok (default dflt (m !! key))
  | _ => Raise AttributeError
  end.

(** [v.lower()] *)
Definition lower_of (v : json) : result string :=
  match v with
  | JStr s => Ok (lower s)
  | _ => Raise AttributeError
  end.

(** [v == text] for a string literal [text]. *)
Definition equals_str (v : json) (text : string) : bool :=
  match v with
  | JStr s => String.eqb s text
  | _ => false
  end.

(** [v in texts] for a list of string literals. *)
Definition in_strs (v : json) (texts : list string) : bool :=
  existsb (equals_str v) texts.

(** The truth value of [v] in an [if]. *)
Definition truthy (v : json) : bool :=
  match v with
  | JNull => false
  | JBool b => b
  | JInt n => negb (n =? 0)
  | JFloat nonzero => nonzero
  | JStr s => negb (is_empty s)
  | JArr l => match l with [] => false | _ :: _ => true end
  | JObj m => bool_decide (m ≠ ∅)
  end.

(** [s.split(sep)] for a separator of one character. *)
Fixpoint split (sep : ascii) (s : string) : list string :=
  match s with
  | EmptyString => [EmptyString]
  | String c s' =>
      if Ascii.eqb c sep then EmptyString :: split sep s'
      else
        match split sep s' with
        | piece :: pieces => String c piece :: pieces
        | [] => [String c EmptyString]
        end
  end.

Definition loss_results : list string :=
  [ "checkmated"; "timeout"; "resigned"; "abandoned" ].

Definition draw_results : list string :=
  [ "agreed"; "repetition"; "stalemate"; "insufficient"; "50move";
    "timevsinsufficient" ].

(** The last branch prints a message that reads [game.get('url')]: the
    game is a JSON object there, so that cannot raise. *)
Definition classify_game (game : json) (username : string) : result string :=
  white <- subscript game "white" ;;
  name <- subscript white "username" ;;
  white_user <- lower_of name ;;
  let user_color :=
    if String.eqb white_user (lower username) then "white" else "black" in
  player <- subscript game user_color ;;
  outcome <- subscript player "result" ;;
  if equals_str outcome "win" then Ok "win"
  else if in_strs outcome loss_results then Ok "loss"
  else if in_strs outcome draw_results then Ok "draw"
  else Ok "draw".

(** [url.split("/")[-1] if url else "unknown_id"] *)
Definition game_id_of (url : json) : result string :=
  if truthy url then
    match url with
    | JStr u => Ok (default "" (last (split "/" u)))
    | _ => Raise AttributeError
    end
  else Ok "unknown_id".

(** The path that [save_game] computes. *)
Definition save_path (game : json) (classification output_dir : string)
  : result string :=
  url <- get game "url" (JStr "") ;;
  game_id <- game_id_of url ;;
  let filename := "game_" +:+ game_id +:+ ".pgn" in
  Ok (path_join output_dir [classification; filename]).

(** [save_game]: the files after the call, and what the call returns or
    raises.  Writing something that is not a string raises after the
    file has been opened, which leaves it empty. *)
Definition save_game (game : json) (classification output_dir : string)
           (files : gmap string string) : gmap string string * result bool :=
  match save_path game classification output_dir with
  | Raise e => (files, Raise e)
  | Ok path =>
      match get game "pgn" JNull with
      | Raise e => (files, Raise e)
      | Ok pgn =>
          if truthy pgn then
            match pgn with
            | JStr text => (<[path := text]> files, Ok true)
            | _ => (<[path := ""]> files, Raise TypeError)
            end
          else (files, Ok false)
      end
  end.

(** The body of the inner loop of [main] after the test on [count]: the
    files and [count] after it, and the exception if one is raised. *)
Definition handle_game (username output_dir : string) (game : json)
           (files : gmap string string) (count : Z)
  : gmap string string * Z * option exn :=
  match get game "time_class" JNull with
  | Raise e => (files, count, Some e)
  | Ok time_class =>
      if equals_str time_class "rapid" then
        match classify_game game username with
        | Raise e => (files, count, Some e)
        | Ok classification =>
            match save_game game classification output_dir files with
            | (files', Ok true) => (files', count + 1, None)
            | (files', Ok false) => (files', count, None)
            | (files', Raise e) => (files', count, Some e)
            end
        end
      else (files, count, None)
  end.

(** The inner loop of [main], [for game in games], with its [break]. *)
Fixpoint handle_games (target_count : Z) (username output_dir : string)
         (games : list json) (files : gmap string string) (count : Z)
  : gmap string string * Z * option exn :=
  match games with
  | [] => (files, count, None)
  | game :: games' =>
      if target_count <=? count then (files, count, None)
      else
        match handle_game username output_dir game files count with
        | (files', count', None) =>
            handle_games target_count username output_dir games' files' count'
        | stopped => stopped
        end
  end.

(** The directories that [setup_directories] creates under [output_dir]. *)
Definition result_types : list string := [ "win"; "loss"; "draw" ].

End Fetch.

(** ** Notions used in the statements *)

(** [sub] occurs in [s]. *)
Definition occurs_in (sub s : string) : Prop :=
  exists pre post, s = pre +:+ sub +:+ post.

(** [s] begins with [p]. *)
Definition begins_with (p s : string) : Prop :=
  exists rest, s = p +:+ rest.

(** The keywords of the termination classifier with their categories, in
    the order in which the chain of tests tries them. *)
Definition termination_keywords : list (string * string) :=
  [ ("checkmate", "Checkmate"); ("resignation", "Resignation");
    ("timeout", "Timeout"); ("abandoned", "Abandoned");
    ("agreement", "Draw by Agreement"); ("repetition", "Draw by Repetition");
    ("stalemate", "Stalemate"); ("insufficient", "Insufficient Material") ].

Definition termination_categories : list string :=
  [ "Unknown"; "Checkmate"; "Resignation"; "Timeout"; "Abandoned";
    "Draw by Agreement"; "Draw by Repetition"; "Stalemate";
    "Insufficient Material"; "Other" ].

(** [value] belongs to the first pair of [table], in the order of the
    list, whose first component satisfies [P]. *)
Definition first_match {B : Type} (P : string -> Prop)
           (table : list (string * B)) (value : B) : Prop :=
  exists before key after,
    table = (before ++ (key, value) :: after)%list /\
    P key /\
    forall k v, In (k, v) before -> ~ P k.

Definition no_match {B : Type} (P : string -> Prop)
           (table : list (string * B)) : Prop :=
  forall k v, In (k, v) table -> ~ P k.

(** The category of the first keyword, in the order of
    [termination_keywords], that the lower-cased text [s] contains. *)
Definition keyword_category (s : string) : string :=
  default "Other" (first_where (fun kw => contains s kw) termination_keywords).

(** *** Kinds of lines *)

(** The first test of the loop of [parse_pgn]: the trimmed line begins
    with an opening bracket and ends with a closing one. *)
Definition is_bracketed (raw : string) : bool :=
  startswith (strip raw) "[" && endswith (strip raw) "]".

(** The second test: the trimmed line is empty. *)
Definition is_blank (raw : string) : bool := String.eqb (strip raw) "".

(** A bracketed line that matches the tag-pair pattern. *)
Definition is_tag_line (raw : string) : bool :=
  is_bracketed raw && bool_decide (is_Some (tag_pair (strip raw))).

(** A line that is neither bracketed nor blank: a candidate for the
    movetext. *)
Definition is_text_line (raw : string) : bool :=
  negb (is_bracketed raw) && negb (is_blank raw).

(** Line number [i] of [lines] exists and is of the given kind. *)
Definition has_line (lines : list string) (i : nat) (kind : string -> bool) : Prop :=
  exists raw, lines !! i = Some raw /\ kind raw = true.

Definition tag_recorded (lines : list string) : Prop :=
  exists i, has_line lines i is_tag_line.

(** A blank line occurs after a tag line. *)
Definition blank_after_tag (lines : list string) : Prop :=
  exists i j, (i < j)%nat /\
    has_line lines i is_tag_line /\ has_line lines j is_blank.

(** A blank line lies between a tag line and a later text line. *)
Definition blank_between_tag_and_text (lines : list string) : Prop :=
  exists i j k, (i < j)%nat /\ (j < k)%nat /\
    has_line lines i is_tag_line /\ has_line lines j is_blank /\
    has_line lines k is_text_line.

(** *** Move-number markers *)

Fixpoint all_chars (p : ascii -> bool) (s : string) : bool :=
  match s with
  | EmptyString => true
  | String c s' => p c && all_chars p s'
  end.

(** The last character of [s] is a decimal digit. *)
Fixpoint ends_in_digit (s : string) : bool :=
  match s with
  | EmptyString => false
  | String c EmptyString => isdecimal c
  | String _ s' => ends_in_digit s'
  end.

(** [buf] is [pre], then the run of digits [digits], then a period and a
    white-space character, then [post]; the run is not empty and is not
    the tail of a longer run of digits. *)
Definition marker (buf pre digits post : string) : Prop :=
  exists w,
    buf = pre +:+ digits +:+ String "." (String w post) /\
    digits <> "" /\
    all_chars isdecimal digits = true /\
    isspace w = true /\
    ends_in_digit pre = false.

(** [digits] is the run of digits of the last marker of [buf]: no marker
    of [buf] starts further to the right. *)
Definition last_marker (buf digits : string) : Prop :=
  exists pre post,
    marker buf pre digits post /\
    forall pre' digits' post',
      marker buf pre' digits' post' ->
      (String.length pre' <= String.length pre)%nat.

Definition no_marker (buf : string) : Prop :=
  forall pre digits post, ~ marker buf pre digits post.



(** The longest prefix of [s] made of characters of the class [p], and
    what follows it. *)
Fixpoint run_of (p : ascii -> bool) (s : string) : string :=
  match s with
  | EmptyString => EmptyString
  | String c s' => if p c then String c (run_of p s') else EmptyString
  end.

Fixpoint after_run (p : ascii -> bool) (s : string) : string :=
  match s with
  | EmptyString => EmptyString
  | String c s' => if p c then after_run p s' else s
  end.

(** *** Notions for the further properties of the analyser *)

(** [b] is [a] with white space added in front and behind. *)
Definition padded (a b : string) : Prop :=
  exists w1 w2,
    all_chars isspace w1 = true /\ all_chars isspace w2 = true /\
    b = w1 +:+ a +:+ w2.

(** The key and the value that the line [raw] records, if it records
    any. *)
Definition tag_of (raw : string) : option (string * string) :=
  if is_bracketed raw then tag_pair (strip raw) else None.

(** The line [raw] records some value under [key]. *)
Definition records (key raw : string) : Prop :=
  exists value, tag_of raw = Some (key, value).

(** What the lines of text among [lines] add to the movetext buffer. *)
Definition movetext_of (lines : list string) : string :=
  fold_right (fun raw rest => " " +:+ strip raw +:+ rest) ""
             (List.filter is_text_line lines).

(** A tag line as PGN writes it. *)
Definition tag_line (key value : string) : string :=
  "[" +:+ key +:+ " " +:+ quoted value +:+ "]".

(** The first characters of the keys of the catalog. *)
Definition catalog_letters : list ascii := [ "A"; "B"; "C"; "D"; "E" ]%char.

(** The folder and the name of every file of [walk] that [main] reads,
    in the order of the walk. *)
Definition pgn_files_of (walk : list (string * list (string * list string)))
  : list (string * string) :=
  flat_map (fun entry =>
              map (fun f => (basename (fst entry), fst f))
                  (List.filter (fun f => is_pgn_file (fst f)) (snd entry)))
           walk.

(** *** Notions for the properties of the downloader *)

(** [outcome] is the result that [game] records for the side that
    [username] plays: White's when the name of White is [username]
    up to the case of the letters, Black's otherwise. *)
Definition user_outcome (game : Fetch.json) (username : string)
           (outcome : Fetch.json) : Prop :=
  exists m w white_name,
    game = Fetch.JObj m /\
    m !! "white" = Some (Fetch.JObj w) /\
    w !! "username" = Some (Fetch.JStr white_name) /\
    (lower white_name = lower username /\ w !! "result" = Some outcome \/
     lower white_name <> lower username /\
     exists b, m !! "black" = Some (Fetch.JObj b) /\
               b !! "result" = Some outcome).

(** No game of the list is a rapid game, and all are JSON objects. *)
Definition none_rapid (games : list Fetch.json) : Prop :=
  Forall (fun game =>
            exists m, game = Fetch.JObj m /\
                      Fetch.equals_str (default Fetch.JNull (m !! "time_class")) "rapid"
                      = false)
         games.

(** *** A move number that [int()] refuses *)

(** [c * n] for a string [c] of one character. *)
Fixpoint repeat_char (n : nat) (c : ascii) : string :=
  match n with
  | O => EmptyString
  | S n' => String c (repeat_char n' c)
  end.

(** A run of 4301 digits, one more than [int()] accepts. *)
Definition long_move_number : string := repeat_char (S max_str_digits) "1".

(** A game record whose only move number is that run. *)
Definition long_marker_game : list string :=
  [ "[White " +:+ quoted "bob" +:+ "]";
    "";
    long_move_number +:+ ". e4" ].

(** ** The length and loss-quality classifiers *)

Section Thresholds.

Local Ltac by_cases :=
  repeat match goal with
         | |- context [?a <? ?b] => destruct (Z.ltb_spec a b)
         | |- context [?a <=? ?b] => destruct (Z.leb_spec a b)
         end; try lia; auto.

Lemma game_length_cases (n : Z) :
  classify_game_length n = "Quick" /\ n < 20 \/
  classify_game_length n = "Medium" /\ 20 <= n <= 40 \/
  classify_game_length n = "Long" /\ 40 < n.
Proof. unfold classify_game_length. by_cases. Qed.

Lemma loss_quality_cases (n : Z) :
  classify_loss_quality "loss" n = "Quick Loss" /\ n < 15 \/
  classify_loss_quality "loss" n = "Standard Loss" /\ 15 <= n < 30 \/
  classify_loss_quality "loss" n = "Well-Fought Loss" /\ 30 <= n.
Proof. unfold classify_loss_quality. simpl. by_cases. Qed.

Lemma loss_quality_other_folder (folder : string) (n : Z) :
  folder <> "loss" -> classify_loss_quality folder n = "N/A".
Proof.
  intros Hne. unfold classify_loss_quality.
  destruct (String.eqb_spec folder "loss"); [contradiction | reflexivity].
Qed.

End Thresholds.

(** C3. [classify_loss_quality] gives "N/A" whenever the folder is not
    exactly "loss" (a folder that differs only in case, such as "Loss",
    is not the loss folder); for the folder "loss" it gives "Quick Loss"
    below 15 moves, "Standard Loss" from 15 to 29 and "Well-Fought Loss"
    from 30 on; 14, 15, 29 and 30 fall in Quick Loss, Standard Loss,
    Standard Loss and Well-Fought Loss. *)
Theorem classify_loss_quality_spec (folder : string) (n : Z) :
  (folder <> "loss" /\ classify_loss_quality folder n = "N/A" \/
   folder = "loss" /\
   (classify_loss_quality folder n = "Quick Loss" /\ n < 15 \/
    classify_loss_quality folder n = "Standard Loss" /\ 15 <= n < 30 \/
    classify_loss_quality folder n = "Well-Fought Loss" /\ 30 <= n)) /\
  classify_loss_quality "Loss" n = "N/A" /\
  classify_loss_quality "loss" 14 = "Quick Loss" /\
  classify_loss_quality "loss" 15 = "Standard Loss" /\
  classify_loss_quality "loss" 29 = "Standard Loss" /\
  classify_loss_quality "loss" 30 = "Well-Fought Loss".
Proof.
  split; [| repeat split].
  destruct (String.eqb_spec folder "loss") as [-> | Hne].
  - right. split; [reflexivity | apply loss_quality_cases].
  - left. split; [assumption | now apply loss_quality_other_folder].
Qed.

(** C4. [classify_game_length] gives exactly one of "Quick", "Medium" and
    "Long": "Quick" below 20 moves, "Medium" from 20 to 40, "Long" above
    40; 19, 20, 40 and 41 fall in Quick, Medium, Medium and Long, and a
    negative count falls in the lowest bucket, "Quick". *)
Theorem classify_game_length_spec (n : Z) :
  (classify_game_length n = "Quick" /\ n < 20 \/
   classify_game_length n = "Medium" /\ 20 <= n <= 40 \/
   classify_game_length n = "Long" /\ 40 < n) /\
  (n < 0 -> classify_game_length n = "Quick") /\
  classify_game_length 19 = "Quick" /\
  classify_game_length 20 = "Medium" /\
  classify_game_length 40 = "Medium" /\
  classify_game_length 41 = "Long".
Proof.
  split; [apply game_length_cases | split; [| repeat split]].
  intros Hneg.
  destruct (game_length_cases n) as [[H _] | [[_ H] | [_ H]]]; [exact H | lia | lia].
Qed.

Lemma classify_game_length_spec_witness :
  -3 < 0 /\ classify_game_length (-3) = "Quick".
Proof.
  split; [lia |].
  apply (proj1 (proj2 (classify_game_length_spec (-3)))). lia.
Defined.

(** ** The termination classifier on the texts of the specification *)

(** C1, as amended. "Game drawn by repetition" is classified as "Draw by
    Repetition" and an empty or absent termination as "Unknown"; "White
    resigned the match" is classified as "Other", because the keyword
    that selects "Resignation" is "resignation", which that text does
    not contain; a text that contains it, such as "White won by
    resignation", is classified as "Resignation". *)
Theorem classify_termination_examples :
  classify_termination (Some "Game drawn by repetition") = "Draw by Repetition" /\
  classify_termination (Some "White resigned the match") = "Other" /\
  classify_termination (Some "White won by resignation") = "Resignation" /\
  classify_termination (Some "") = "Unknown" /\
  classify_termination None = "Unknown".
Proof. repeat split. Qed.

(** C1, as stated, fails: the three examples of the claim do not hold
    together, the second text being classified as "Other". *)
Lemma classify_termination_resigned_counterexample :
  ~ (classify_termination (Some "Game drawn by repetition") = "Draw by Repetition" /\
     classify_termination (Some "White resigned the match") = "Resignation" /\
     classify_termination (Some "") = "Unknown" /\
     classify_termination None = "Unknown").
Proof. intros (_ & H & _). vm_compute in H. discriminate H. Qed.

(** ** One game, end to end *)

(** C5. The record of the specification (four tag lines, a blank line,
    one line of movetext), analysed for the user "bob", has colour
    "White", rating differential +100, move count 3 and length bucket
    "Quick"; the folder and the file name play no part, and the lines
    may end in a line feed or not. *)
Theorem bob_game_analysis (folder file : string) :
  (exists g, analyze_file "bob" folder file bob_game = Some g /\
             ColorPlayed g = "White" /\ RatingDiff g = 100 /\
             MoveCount g = 3 /\ GameLength g = "Quick") /\
  (exists g, analyze_file "bob" folder file (with_line_feeds bob_game) = Some g /\
             ColorPlayed g = "White" /\ RatingDiff g = 100 /\
             MoveCount g = 3 /\ GameLength g = "Quick").
Proof.
  assert (H1 : parse_pgn bob_game = Some (headers (scan_lines bob_game), 3))
    by (vm_compute; reflexivity).
  assert (H2 : parse_pgn (with_line_feeds bob_game)
               = Some (headers (scan_lines bob_game), 3))
    by (vm_compute; reflexivity).
  assert (Hc : color_played (headers (scan_lines bob_game)) "bob" = "White")
    by (vm_compute; reflexivity).
  assert (Hr : rating_diff (headers (scan_lines bob_game)) "White" = 100)
    by (vm_compute; reflexivity).
  unfold analyze_file. rewrite H1, H2. cbn [mbind option_bind]. rewrite Hc, Hr.
  split; (eexists; split; [reflexivity |]);
    cbn [ColorPlayed RatingDiff MoveCount GameLength]; repeat split.
Qed.

(** ** The rating differential *)

Lemma elo_missing (hdrs : gmap string string) (key : string) :
  hdrs !! key = None -> elo hdrs key = Some 0.
Proof. unfold elo. now intros ->. Qed.

Lemma elo_present (hdrs : gmap string string) (key text : string) :
  hdrs !! key = Some text -> elo hdrs key = int text.
Proof. unfold elo. now intros ->. Qed.

Lemma color_played_cases (hdrs : gmap string string) (username : string) :
  color_played hdrs username = "White" \/ color_played hdrs username = "Black".
Proof. unfold color_played. destruct (String.eqb _ _); auto. Qed.

(** C6. Each of the two ratings is [0] when its tag is missing and the
    integer value of the tag's text otherwise, and computing the
    differential raises nothing ([rating_diff] is a total function to
    [Z]).  When both ratings are integers the differential is the
    opponent's rating minus the user's own: Black's minus White's when
    the colour played is "White", White's minus Black's when it is
    "Black".  When the text of either tag is not an integer literal the
    differential is [0]. *)
Theorem rating_diff_spec (hdrs : gmap string string) (username : string) :
  let color := color_played hdrs username in
  (forall key, hdrs !! key = None -> elo hdrs key = Some 0) /\
  (forall key text, hdrs !! key = Some text -> elo hdrs key = int text) /\
  (forall white_elo black_elo,
      elo hdrs "WhiteElo" = Some white_elo ->
      elo hdrs "BlackElo" = Some black_elo ->
      color = "White" /\ rating_diff hdrs color = black_elo - white_elo \/
      color = "Black" /\ rating_diff hdrs color = white_elo - black_elo) /\
  (forall key text,
      key = "WhiteElo" \/ key = "BlackElo" ->
      hdrs !! key = Some text -> int text = None ->
      rating_diff hdrs color = 0).
Proof.
  intros color. repeat split.
  - apply elo_missing.
  - apply elo_present.
  - intros w b Hw Hb. unfold rating_diff. rewrite Hw, Hb. simpl.
    destruct (color_played_cases hdrs username) as [Hc | Hc];
      fold color in Hc; rewrite Hc; simpl; auto.
  - intros key text Hkey Hget Hint. unfold rating_diff.
    destruct Hkey as [-> | ->].
    + rewrite (elo_present _ _ _ Hget), Hint. reflexivity.
    + rewrite (elo_present _ _ _ Hget), Hint.
      destruct (elo hdrs "WhiteElo"); reflexivity.
Qed.

Lemma rating_diff_spec_witness :
  let hdrs : gmap string string :=
    <["White" := "bob"]> (<["WhiteElo" := "1500"]> (<["BlackElo" := "16x0"]> ∅)) in
  hdrs !! "BlackElo" = Some "16x0" /\ int "16x0" = None /\
  rating_diff hdrs (color_played hdrs "bob") = 0.
Proof.
  intros hdrs.
  assert (Hget : hdrs !! "BlackElo" = Some "16x0") by (vm_compute; reflexivity).
  assert (Hint : int "16x0" = None) by reflexivity.
  split; [exact Hget | split; [exact Hint |]].
  exact (proj2 (proj2 (proj2 (rating_diff_spec hdrs "bob")))
           "BlackElo" "16x0" (or_intror eq_refl) Hget Hint).
Defined.

(** ** Strings: prefixes and occurrences *)

Section StringFacts.

Lemma append_cons (x : ascii) (a b : string) :
  String x a +:+ b = String x (a +:+ b).
Proof. reflexivity. Qed.

Lemma append_empty_l (a : string) : "" +:+ a = a.
Proof. reflexivity. Qed.

Lemma append_assoc (a b c : string) : (a +:+ b) +:+ c = a +:+ (b +:+ c).
Proof.
  induction a as [| x a IH]; [reflexivity |].
  rewrite !append_cons. now f_equal.
Qed.

Lemma append_empty_r (a : string) : a +:+ "" = a.
Proof.
  induction a as [| x a IH]; [reflexivity |].
  rewrite append_cons. now f_equal.
Qed.

Lemma append_length (a b : string) :
  String.length (a +:+ b) = (String.length a + String.length b)%nat.
Proof.
  induction a as [| x a IH]; [reflexivity |].
  rewrite append_cons. simpl. now f_equal.
Qed.

Lemma startswith_spec (s p : string) :
  startswith s p = true <-> begins_with p s.
Proof.
  revert s. induction p as [| a p IH]; intros s; simpl.
  - split; [intros _; now exists s | reflexivity].
  - destruct s as [| b s].
    + split; [discriminate | intros [rest H]; discriminate H].
    + rewrite andb_true_iff, IH. split.
      * intros [Hab [rest ->]]. apply Ascii.eqb_eq in Hab. subst b.
        now exists rest.
      * intros [rest H]. rewrite append_cons in H. injection H as -> ->.
        split; [apply Ascii.eqb_refl | now exists rest].
Qed.

Lemma contains_spec (s sub : string) :
  contains s sub = true <-> occurs_in sub s.
Proof.
  induction s as [| c s IH].
  - simpl contains. rewrite orb_false_r, startswith_spec. split.
    + intros [rest H]. now exists "", rest.
    + intros (pre & post & H). destruct pre; [| discriminate H].
      now exists post.
  - simpl contains. rewrite orb_true_iff, startswith_spec, IH. split.
    + intros [[rest H] | (pre & post & H)].
      * now exists "", rest.
      * exists (String c pre), post. rewrite append_cons. now rewrite H.
    + intros (pre & post & H). destruct pre as [| x pre].
      * left. now exists post.
      * right. rewrite append_cons in H. injection H as _ H.
        now exists pre, post.
Qed.

End StringFacts.

(** ** First-match loops *)

Section FirstMatch.
Context {B : Type} (test : string -> bool) (P : string -> Prop).
Hypothesis test_spec : forall k, test k = true <-> P k.

Lemma first_where_some (items : list (string * B)) (value : B) :
  first_where test items = Some value -> first_match P items value.
Proof.
  induction items as [| [k v] items IH]; simpl; [discriminate |].
  destruct (test k) eqn:Hk.
  - intros [= ->]. exists [], k, items. repeat split.
    + now apply test_spec.
    + intros ? ? [].
  - intros H. destruct (IH H) as (before & key & after & -> & HP & Hno).
    exists ((k, v) :: before), key, after. repeat split; [assumption |].
    intros k' v' [[= <- <-] | Hin].
    + rewrite <- test_spec, Hk. discriminate.
    + now apply (Hno k' v').
Qed.

Lemma first_where_none (items : list (string * B)) :
  first_where test items = None -> no_match P items.
Proof.
  induction items as [| [k v] items IH]; simpl.
  - intros _ ? ? [].
  - destruct (test k) eqn:Hk; [discriminate |].
    intros H k' v' [[= <- <-] | Hin].
    + rewrite <- test_spec, Hk. discriminate.
    + now apply (IH H k' v').
Qed.

End FirstMatch.

Lemma dict_get_some (items : list (string * string)) (k v : string) :
  dict_get items k = Some v -> In (k, v) items.
Proof.
  induction items as [| [k' v'] items IH]; simpl; [discriminate |].
  destruct (String.eqb_spec k' k) as [-> | Hne].
  - intros [= ->]. now left.
  - intros H. right. now apply IH.
Qed.

Lemma dict_get_none (items : list (string * string)) (k : string) :
  dict_get items k = None -> forall v, ~ In (k, v) items.
Proof.
  induction items as [| [k' v'] items IH]; simpl; [intros _ v [] |].
  destruct (String.eqb_spec k' k) as [-> | Hne]; [discriminate |].
  intros H v [[= -> ->] | Hin]; [now apply Hne | now apply (IH H v)].
Qed.

(** ** The opening resolver *)

Section OpeningResolver.

Lemma first_startswith_some (prefix name : string) :
  first_startswith ECO_OPENINGS prefix = Some name ->
  first_match (begins_with prefix) ECO_OPENINGS name.
Proof.
  apply first_where_some. intros k. apply startswith_spec.
Qed.

Lemma first_startswith_none (prefix : string) :
  first_startswith ECO_OPENINGS prefix = None ->
  no_match (begins_with prefix) ECO_OPENINGS.
Proof.
  apply first_where_none. intros k. apply startswith_spec.
Qed.

(** The keys of the literal are pairwise different, so the list of items
    is the dict. *)
Lemma ECO_OPENINGS_keys_unique : NoDup (map fst ECO_OPENINGS).
Proof. apply (bool_decide_unpack _). vm_compute. exact I. Qed.

Lemma get_opening_name_exact (code name : string) :
  In (code, name) ECO_OPENINGS -> get_opening_name (Some code) = name.
Proof.
  intros H. simpl in H.
  repeat (destruct H as [[= <- <-] | H]; [reflexivity |]).
  destruct H.
Qed.

Lemma get_opening_name_fallback (code : string) :
  code <> "" ->
  dict_get ECO_OPENINGS code = None ->
  get_opening_name (Some code) = prefix_fallback [2%nat; 1%nat] code.
Proof.
  intros Hne Hget. unfold get_opening_name.
  destruct code; [contradiction | now rewrite Hget].
Qed.

End OpeningResolver.

(** C2. [get_opening_name] gives "Unknown" for an absent or empty code
    and the catalog's name for a code that is a key of the catalog.  For
    any other code it gives the name of the first catalog item, in
    insertion order, whose key begins with the first two characters of
    the code; when there is none, that of the first item whose key
    begins with the first character; when there is none either,
    "Unknown".  "B10" gives "Caro-Kann Defense", "B99" gives "Sicilian:
    Najdorf" and "Z99" gives "Unknown". *)
Theorem get_opening_name_spec :
  get_opening_name None = "Unknown" /\
  get_opening_name (Some "") = "Unknown" /\
  (forall code name,
      In (code, name) ECO_OPENINGS -> get_opening_name (Some code) = name) /\
  (forall code,
      code <> "" ->
      (forall name, ~ In (code, name) ECO_OPENINGS) ->
      let result := get_opening_name (Some code) in
      first_match (begins_with (slice_to 2 code)) ECO_OPENINGS result \/
      no_match (begins_with (slice_to 2 code)) ECO_OPENINGS /\
      first_match (begins_with (slice_to 1 code)) ECO_OPENINGS result \/
      no_match (begins_with (slice_to 2 code)) ECO_OPENINGS /\
      no_match (begins_with (slice_to 1 code)) ECO_OPENINGS /\
      result = "Unknown") /\
  get_opening_name (Some "B10") = "Caro-Kann Defense" /\
  get_opening_name (Some "B99") = "Sicilian: Najdorf" /\
  get_opening_name (Some "Z99") = "Unknown".
Proof.
  split; [reflexivity | split; [reflexivity |]].
  split; [exact get_opening_name_exact |].
  split; [| repeat split].
  intros code Hne Hnokey result.
  assert (Hget : dict_get ECO_OPENINGS code = None).
  { destruct (dict_get ECO_OPENINGS code) as [name |] eqn:E; [| reflexivity].
    destruct (Hnokey name). now apply dict_get_some. }
  unfold result. rewrite (get_opening_name_fallback code Hne Hget).
  cbn [prefix_fallback].
  destruct (first_startswith ECO_OPENINGS (slice_to 2 code)) as [v2 |] eqn:E2.
  - left. now apply first_startswith_some.
  - apply first_startswith_none in E2.
    destruct (first_startswith ECO_OPENINGS (slice_to 1 code)) as [v1 |] eqn:E1.
    + right. left. split; [assumption | now apply first_startswith_some].
    + right. right. apply first_startswith_none in E1. now repeat split.
Qed.

Lemma get_opening_name_spec_witness :
  "B99" <> "" /\
  (forall name, ~ In ("B99", name) ECO_OPENINGS) /\
  (first_match (begins_with "B9") ECO_OPENINGS (get_opening_name (Some "B99")) \/
   no_match (begins_with "B9") ECO_OPENINGS /\
   first_match (begins_with "B") ECO_OPENINGS (get_opening_name (Some "B99")) \/
   no_match (begins_with "B9") ECO_OPENINGS /\
   no_match (begins_with "B") ECO_OPENINGS /\
   get_opening_name (Some "B99") = "Unknown").
Proof.
  assert (Hne : "B99" <> "") by discriminate.
  assert (Hnokey : forall name, ~ In ("B99", name) ECO_OPENINGS)
    by (apply dict_get_none; reflexivity).
  split; [exact Hne | split; [exact Hnokey |]].
  exact (proj1 (proj2 (proj2 (proj2 get_opening_name_spec))) "B99" Hne Hnokey).
Defined.

(** ** The termination classifier *)

Section Termination.

Lemma classify_termination_keyword (text : string) :
  text <> "" ->
  classify_termination (Some text) = keyword_category (lower text).
Proof.
  intros Hne. unfold classify_termination.
  destruct text as [| c text]; [contradiction |].
  generalize (lower (String c text)). intros s.
  unfold keyword_category, termination_keywords. cbn [first_where].
  repeat (destruct (contains s _); [reflexivity |]).
  reflexivity.
Qed.

Lemma keyword_category_in (s : string) :
  In (keyword_category s) termination_categories.
Proof.
  unfold keyword_category, termination_keywords. cbn [first_where].
  repeat (destruct (contains s _); [cbn; tauto |]).
  cbn. tauto.
Qed.

Lemma keyword_category_first (s : string) :
  first_match (fun kw => occurs_in kw s) termination_keywords (keyword_category s) \/
  no_match (fun kw => occurs_in kw s) termination_keywords /\
  keyword_category s = "Other".
Proof.
  unfold keyword_category.
  destruct (first_where _ termination_keywords) as [cat |] eqn:E.
  - left. revert E. apply first_where_some. intros k. apply contains_spec.
  - right. split; [| reflexivity].
    revert E. apply first_where_none. intros k. apply contains_spec.
Qed.

End Termination.

(** C8. [classify_termination] always gives one of the ten categories;
    an absent or empty text gives "Unknown"; for any other text the
    result is the category of the first keyword, in the fixed order of
    the tests, that occurs in the lower-cased text, and "Other" when no
    keyword occurs in it; two texts that differ only in the case of
    their letters are classified alike. *)
Theorem classify_termination_spec :
  (forall termination,
      In (classify_termination termination) termination_categories) /\
  classify_termination None = "Unknown" /\
  classify_termination (Some "") = "Unknown" /\
  (forall text,
      text <> "" ->
      first_match (fun kw => occurs_in kw (lower text)) termination_keywords
                  (classify_termination (Some text)) \/
      no_match (fun kw => occurs_in kw (lower text)) termination_keywords /\
      classify_termination (Some text) = "Other") /\
  (forall text1 text2,
      lower text1 = lower text2 ->
      classify_termination (Some text1) = classify_termination (Some text2)).
Proof.
  split; [| split; [reflexivity | split; [reflexivity | split]]].
  - intros [text |]; [| cbn; tauto].
    destruct text as [| c text]; [cbn; tauto |].
    rewrite classify_termination_keyword by discriminate.
    apply keyword_category_in.
  - intros text Hne. rewrite (classify_termination_keyword text Hne).
    apply keyword_category_first.
  - intros text1 text2 Hlow.
    destruct text1 as [| c1 text1], text2 as [| c2 text2];
      try reflexivity; try discriminate Hlow.
    rewrite !classify_termination_keyword by discriminate.
    now rewrite Hlow.
Qed.

Lemma classify_termination_spec_witness :
  "Bob won by RESIGNATION" <> "" /\
  lower "Bob won by RESIGNATION" = lower "bob won by resignation" /\
  classify_termination (Some "Bob won by RESIGNATION")
  = classify_termination (Some "bob won by resignation") /\
  (first_match (fun kw => occurs_in kw (lower "Bob won by RESIGNATION"))
               termination_keywords
               (classify_termination (Some "Bob won by RESIGNATION")) \/
   no_match (fun kw => occurs_in kw (lower "Bob won by RESIGNATION"))
            termination_keywords /\
   classify_termination (Some "Bob won by RESIGNATION") = "Other").
Proof.
  assert (Hne : "Bob won by RESIGNATION" <> "") by discriminate.
  assert (Hlow : lower "Bob won by RESIGNATION" = lower "bob won by resignation")
    by reflexivity.
  split; [exact Hne | split; [exact Hlow | split]].
  - exact (proj2 (proj2 (proj2 (proj2 classify_termination_spec))) _ _ Hlow).
  - exact (proj1 (proj2 (proj2 (proj2 classify_termination_spec))) _ Hne).
Defined.

(** ** The line scanner of [parse_pgn] *)

Section LineKinds.

Lemma blank_not_bracketed (raw : string) :
  is_blank raw = true -> is_bracketed raw = false.
Proof.
  unfold is_blank, is_bracketed. intros H.
  apply String.eqb_eq in H. now rewrite H.
Qed.

Lemma tag_line_bracketed (raw : string) :
  is_tag_line raw = true -> is_bracketed raw = true.
Proof. unfold is_tag_line. now intros [H _]%andb_true_iff. Qed.

Lemma text_line_not_bracketed (raw : string) :
  is_text_line raw = true -> is_bracketed raw = false.
Proof.
  unfold is_text_line. intros [H _]%andb_true_iff.
  now apply negb_true_iff in H.
Qed.

Lemma text_line_not_blank (raw : string) :
  is_text_line raw = true -> is_blank raw = false.
Proof.
  unfold is_text_line. intros [_ H]%andb_true_iff.
  now apply negb_true_iff in H.
Qed.

Lemma tag_line_not_blank (raw : string) :
  is_tag_line raw = true -> is_blank raw = false.
Proof.
  intros H%tag_line_bracketed. destruct (is_blank raw) eqn:E; [| reflexivity].
  apply blank_not_bracketed in E. congruence.
Qed.

Lemma line_kind (raw : string) :
  is_bracketed raw = true \/ is_blank raw = true \/ is_text_line raw = true.
Proof.
  unfold is_text_line.
  destruct (is_bracketed raw); [now left |].
  destruct (is_blank raw); [right; now left | right; now right].
Qed.

End LineKinds.

Section ScanLine.
Variable st : scan_state.
Variable raw : string.

Lemma scan_line_bracketed :
  is_bracketed raw = true ->
  scan_line st raw =
    match tag_pair (strip raw) with
    | Some (key, value) =>
        {| headers := <[key := value]> (headers st);
           moves_text := moves_text st;
           in_moves := in_moves st |}
    | None => st
    end.
Proof. unfold scan_line, is_bracketed. now intros ->. Qed.

Lemma scan_line_blank :
  is_blank raw = true ->
  scan_line st raw =
    if bool_decide (headers st ≠ ∅)
    then {| headers := headers st; moves_text := moves_text st; in_moves := true |}
    else st.
Proof.
  intros Hb. pose proof (blank_not_bracketed raw Hb) as Hnb.
  unfold scan_line. unfold is_bracketed in Hnb. unfold is_blank in Hb.
  now rewrite Hnb, Hb.
Qed.

Lemma scan_line_text :
  is_text_line raw = true ->
  scan_line st raw =
    if in_moves st
    then {| headers := headers st;
            moves_text := moves_text st +:+ " " +:+ strip raw;
            in_moves := in_moves st |}
    else st.
Proof.
  intros Ht.
  pose proof (text_line_not_bracketed raw Ht) as Hnb.
  pose proof (text_line_not_blank raw Ht) as Hb.
  unfold scan_line. unfold is_bracketed in Hnb. unfold is_blank in Hb.
  now rewrite Hnb, Hb.
Qed.

End ScanLine.

Lemma scan_lines_snoc (pre : list string) (raw : string) :
  scan_lines (pre ++ [raw]) = scan_line (scan_lines pre) raw.
Proof. unfold scan_lines. now rewrite fold_left_app. Qed.

(** Where the lines of a given kind are, when one line is added at the end. *)
Section Positions.
Variable pre : list string.
Variable raw : string.

Lemma has_line_lt (lines : list string) (i : nat) (kind : string -> bool) :
  has_line lines i kind -> (i < length lines)%nat.
Proof. intros (x & Hx & _). now apply lookup_lt_Some in Hx. Qed.

Lemma has_line_snoc (i : nat) (kind : string -> bool) :
  has_line (pre ++ [raw]) i kind <->
  has_line pre i kind \/ i = length pre /\ kind raw = true.
Proof.
  unfold has_line. split.
  - intros (x & Hx & Hk). apply lookup_app_Some in Hx as [Hx | [Hge Hx]].
    + left. eauto.
    + right. apply list_lookup_singleton_Some in Hx as [Hi ->].
      split; [lia | assumption].
  - intros [(x & Hx & Hk) | [-> Hk]].
    + exists x. split; [| assumption]. now apply lookup_app_l_Some.
    + exists raw. split; [| assumption].
      rewrite lookup_app_r by lia. now rewrite Nat.sub_diag.
Qed.

Lemma tag_recorded_snoc :
  tag_recorded (pre ++ [raw]) <-> tag_recorded pre \/ is_tag_line raw = true.
Proof.
  unfold tag_recorded. split.
  - intros [i [Hi | [_ Hk]]%has_line_snoc]; eauto.
  - intros [[i Hi] | Hk].
    + exists i. apply has_line_snoc. now left.
    + exists (length pre). apply has_line_snoc. now right.
Qed.

Lemma blank_after_tag_snoc :
  blank_after_tag (pre ++ [raw]) <->
  blank_after_tag pre \/ tag_recorded pre /\ is_blank raw = true.
Proof.
  unfold blank_after_tag, tag_recorded. split.
  - intros (i & j & Hij & Hi & Hj).
    apply has_line_snoc in Hj as [Hj | [-> Hk]];
      apply has_line_snoc in Hi as [Hi | [-> _]]; try lia.
    + left. eauto.
    + apply has_line_lt in Hj. lia.
    + right. eauto.
  - intros [(i & j & Hij & Hi & Hj) | [[i Hi] Hk]].
    + exists i, j. rewrite !has_line_snoc. tauto.
    + exists i, (length pre). rewrite !has_line_snoc.
      split; [now apply has_line_lt in Hi | tauto].
Qed.

Lemma blank_between_snoc :
  blank_between_tag_and_text (pre ++ [raw]) <->
  blank_between_tag_and_text pre \/
  blank_after_tag pre /\ is_text_line raw = true.
Proof.
  unfold blank_between_tag_and_text, blank_after_tag. split.
  - intros (i & j & k & Hij & Hjk & Hi & Hj & Hk).
    apply has_line_snoc in Hk as [Hk | [-> Hk]].
    + pose proof (has_line_lt _ _ _ Hk) as Hlt.
      apply has_line_snoc in Hj as [Hj | [-> _]]; [| lia].
      apply has_line_snoc in Hi as [Hi | [-> _]]; [| lia].
      left. exists i, j, k. tauto.
    + apply has_line_snoc in Hj as [Hj | [-> _]]; [| lia].
      apply has_line_snoc in Hi as [Hi | [-> _]]; [| lia].
      right. split; [exists i, j; tauto | assumption].
  - intros [(i & j & k & Hij & Hjk & Hi & Hj & Hk) | [(i & j & Hij & Hi & Hj) Hk]].
    + exists i, j, k. rewrite !has_line_snoc. tauto.
    + exists i, j, (length pre). rewrite !has_line_snoc.
      split; [assumption |]. split; [now apply has_line_lt in Hj | tauto].
Qed.

End Positions.

Section ScanInvariant.

Lemma append_not_empty (a b : string) (c : ascii) : a +:+ String c b <> "".
Proof. destruct a; [| rewrite append_cons]; discriminate. Qed.

Lemma no_line_in_nil (i : nat) (kind : string -> bool) : ~ has_line [] i kind.
Proof. intros (x & Hx & _). discriminate Hx. Qed.

Lemma is_tag_line_bracketed (raw : string) :
  is_bracketed raw = true ->
  is_tag_line raw = true <-> is_Some (tag_pair (strip raw)).
Proof.
  intros Hb. unfold is_tag_line. rewrite Hb. simpl.
  apply bool_decide_eq_true.
Qed.

(** What the three locals of the loop record about the lines read so
    far. *)
Lemma scan_invariant (lines : list string) :
  (headers (scan_lines lines) ≠ ∅ <-> tag_recorded lines) /\
  (in_moves (scan_lines lines) = true <-> blank_after_tag lines) /\
  (moves_text (scan_lines lines) <> "" <-> blank_between_tag_and_text lines).
Proof.
  induction lines as [| raw pre (IHh & IHm & IHt)] using rev_ind.
  - cbn. repeat split; try congruence; try discriminate.
    + intros [i H]. now apply no_line_in_nil in H.
    + intros (i & j & _ & H & _). now apply no_line_in_nil in H.
    + intros (i & j & k & _ & _ & H & _). now apply no_line_in_nil in H.
  - rewrite scan_lines_snoc, tag_recorded_snoc, blank_after_tag_snoc,
      blank_between_snoc.
    destruct (line_kind raw) as [Hk | [Hk | Hk]].
    + (* a bracketed line *)
      assert (Hnb : is_blank raw = false).
      { destruct (is_blank raw) eqn:E; [| reflexivity].
        apply blank_not_bracketed in E. congruence. }
      assert (Hnt : is_text_line raw = false)
        by (unfold is_text_line; now rewrite Hk).
      pose proof (is_tag_line_bracketed raw Hk) as Htag.
      rewrite scan_line_bracketed, Hnb, Hnt by assumption.
      destruct (tag_pair (strip raw)) as [[key value] |]; cbn.
      * assert (is_tag_line raw = true) by (apply Htag; eauto).
        pose proof (insert_non_empty (headers (scan_lines pre)) key value).
        intuition congruence.
      * assert (is_tag_line raw <> true).
        { intros H. apply Htag in H. now destruct H. }
        intuition congruence.
    + (* a blank line *)
      assert (Hnt : is_text_line raw = false)
        by (unfold is_text_line; rewrite Hk, andb_false_r; reflexivity).
      assert (Hng : is_tag_line raw <> true).
      { intros H. apply tag_line_not_blank in H. congruence. }
      rewrite scan_line_blank, Hk, Hnt by assumption.
      case_bool_decide as Hh; cbn; intuition congruence.
    + (* a text line *)
      assert (Hnb : is_blank raw = false) by now apply text_line_not_blank.
      assert (Hng : is_tag_line raw <> true).
      { intros H. apply tag_line_bracketed in H.
        apply text_line_not_bracketed in Hk. congruence. }
      rewrite scan_line_text, Hnb, Hk by assumption.
      destruct (in_moves (scan_lines pre)) eqn:Em; cbn.
      * pose proof (append_not_empty (moves_text (scan_lines pre))
                      (strip raw) " ").
        change (" " +:+ strip raw) with (String " " (strip raw)).
        intuition congruence.
      * intuition congruence.
Qed.

Lemma parse_pgn_no_movetext (lines : list string) :
  moves_text (scan_lines lines) = "" ->
  parse_pgn lines = Some (headers (scan_lines lines), 0).
Proof. unfold parse_pgn. now intros ->. Qed.

End ScanInvariant.

(** C9. When no blank line lies between a tag line and a later line of
    text (a line that is neither bracketed nor blank), [parse_pgn]
    accumulates no movetext and returns a move count of [0], whatever
    move-number markers the lines of text contain.  Line by line: a line
    of text leaves the state of the scanner unchanged unless a blank
    line has already occurred after a recorded tag, and in that case it
    is appended to the movetext. *)
Theorem movetext_needs_blank_after_tag :
  (forall lines,
      ~ blank_between_tag_and_text lines ->
      moves_text (scan_lines lines) = "" /\
      parse_pgn lines = Some (headers (scan_lines lines), 0)) /\
  (forall pre raw,
      is_text_line raw = true ->
      ~ blank_after_tag pre ->
      scan_lines (pre ++ [raw]) = scan_lines pre) /\
  (forall pre raw,
      is_text_line raw = true ->
      blank_after_tag pre ->
      moves_text (scan_lines (pre ++ [raw]))
      = moves_text (scan_lines pre) +:+ " " +:+ strip raw).
Proof.
  split; [| split].
  - intros lines Hno.
    assert (H : moves_text (scan_lines lines) = "").
    { destruct (string_dec (moves_text (scan_lines lines)) "") as [E | E];
        [exact E |].
      destruct Hno. now apply scan_invariant. }
    split; [exact H | now apply parse_pgn_no_movetext].
  - intros pre raw Ht Hno. rewrite scan_lines_snoc, scan_line_text by assumption.
    destruct (in_moves (scan_lines pre)) eqn:Em; [| reflexivity].
    destruct Hno. now apply scan_invariant.
  - intros pre raw Ht Hyes. rewrite scan_lines_snoc, scan_line_text by assumption.
    apply scan_invariant in Hyes. now rewrite Hyes.
Qed.

Lemma movetext_needs_blank_after_tag_witness :
  let tag := "[White " +:+ quoted "bob" +:+ "]" in
  let text := "1. e4 e5 2. Nf3 Nc6 3. Bb5 1-0" in
  is_tag_line tag = true /\
  findall (" " +:+ text) = ["1"; "2"; "3"] /\
  ~ blank_between_tag_and_text [tag; text] /\
  parse_pgn [tag; text] = Some (headers (scan_lines [tag; text]), 0) /\
  is_text_line text = true /\
  ~ blank_after_tag [tag] /\
  scan_lines ([tag] ++ [text]) = scan_lines [tag].
Proof.
  intros tag text.
  assert (Hno : ~ blank_between_tag_and_text [tag; text]).
  { intros (i & j & k & Hij & Hjk & _ & _ & Hk).
    apply has_line_lt in Hk. simpl in Hk. lia. }
  assert (Ht : is_text_line text = true) by (vm_compute; reflexivity).
  assert (Hno' : ~ blank_after_tag [tag]).
  { intros (i & j & Hij & _ & Hj).
    apply has_line_lt in Hj. simpl in Hj. lia. }
  split; [vm_compute; reflexivity |].
  split; [vm_compute; reflexivity |].
  split; [exact Hno |].
  split; [exact (proj2 (proj1 movetext_needs_blank_after_tag _ Hno)) |].
  split; [exact Ht |].
  split; [exact Hno' |].
  exact (proj1 (proj2 movetext_needs_blank_after_tag) [tag] text Ht Hno').
Defined.

(** C10. A line that, once trimmed, begins with an opening bracket and
    ends with a closing one is handled by the tag branch wherever it
    occurs, also after the accumulation of movetext has started: it
    leaves the movetext buffer and the in-movetext flag as they were;
    when it matches the tag-pair pattern its value is stored under its
    key, replacing any value stored there before, and when it does not
    match the tags are left as they were. *)
Theorem bracketed_line_is_tag_candidate (pre : list string) (raw : string) :
  is_bracketed raw = true ->
  let st := scan_lines pre in
  let st' := scan_lines (pre ++ [raw]) in
  moves_text st' = moves_text st /\
  in_moves st' = in_moves st /\
  match tag_pair (strip raw) with
  | Some (key, value) =>
      headers st' = <[key := value]> (headers st) /\
      headers st' !! key = Some value /\
      (forall other, other <> key -> headers st' !! other = headers st !! other)
  | None => headers st' = headers st
  end.
Proof.
  intros Hb st st'. unfold st'. rewrite scan_lines_snoc. fold st.
  rewrite scan_line_bracketed by assumption.
  destruct (tag_pair (strip raw)) as [[key value] |]; cbn.
  - repeat split.
    + apply lookup_insert_eq.
    + intros other Hne. now apply lookup_insert_ne.
  - repeat split.
Qed.

Lemma bracketed_line_is_tag_candidate_witness :
  let raw := "[White " +:+ quoted "carol" +:+ "]" in
  is_bracketed raw = true /\
  in_moves (scan_lines bob_game) = true /\
  headers (scan_lines bob_game) !! "White" = Some "bob" /\
  moves_text (scan_lines (bob_game ++ [raw])) = moves_text (scan_lines bob_game) /\
  headers (scan_lines (bob_game ++ [raw])) !! "White" = Some "carol".
Proof.
  intros raw.
  assert (Hb : is_bracketed raw = true) by (vm_compute; reflexivity).
  split; [exact Hb |].
  split; [vm_compute; reflexivity |].
  split; [vm_compute; reflexivity |].
  pose proof (bracketed_line_is_tag_candidate bob_game raw Hb) as H.
  cbv zeta in H.
  change (tag_pair (strip raw)) with (Some ("White", "carol")) in H.
  destruct H as (Hm & _ & _ & Hh & _).
  split; [exact Hm | exact Hh].
Defined.

(** ** The move-number pattern *)

Section CharacterClasses.

Local Ltac by_enumeration c :=
  destruct c as [[] [] [] [] [] [] [] []]; vm_compute; congruence.

Lemma decimal_not_period (c : ascii) :
  isdecimal c = true -> Ascii.eqb "." c = false.
Proof. by_enumeration c. Qed.

Lemma space_not_decimal (c : ascii) : isspace c = true -> isdecimal c = false.
Proof. by_enumeration c. Qed.


Lemma word_not_space (c : ascii) : isword c = true -> isspace c = false.
Proof. by_enumeration c. Qed.

Lemma space_not_dquote (c : ascii) :
  isspace c = true -> Ascii.eqb dquote c = false.
Proof. by_enumeration c. Qed.


End CharacterClasses.

Section Runs.
Variable p : ascii -> bool.

Lemma run_then_rest (s : string) : run_of p s +:+ after_run p s = s.
Proof.
  induction s as [| c s IH]; [reflexivity |]. simpl.
  destruct (p c); [| reflexivity]. rewrite append_cons. now f_equal.
Qed.

Lemma run_all_chars (s : string) : all_chars p (run_of p s) = true.
Proof.
  induction s as [| c s IH]; [reflexivity |]. simpl.
  destruct (p c) eqn:E; [| reflexivity]. simpl. now rewrite E.
Qed.

Lemma all_chars_append (a b : string) :
  all_chars p (a +:+ b) = all_chars p a && all_chars p b.
Proof.
  induction a as [| c a IH]; [reflexivity |].
  rewrite append_cons. simpl. now rewrite IH, andb_assoc.
Qed.

(** A run followed by a character outside the class is the longest. *)
Lemma run_of_append (a b : string) (c : ascii) :
  all_chars p a = true -> p c = false ->
  run_of p (a +:+ String c b) = a /\ after_run p (a +:+ String c b) = String c b.
Proof.
  intros Ha Hc. induction a as [| x a IH].
  - rewrite append_empty_l. simpl. now rewrite Hc.
  - rewrite append_cons. simpl in Ha |- *.
    apply andb_true_iff in Ha as [Hx Ha]. rewrite Hx.
    destruct (IH Ha) as [-> ->]. now split.
Qed.

(** Greedy repetition finds the longest run when what follows the
    repetition in the pattern cannot begin with a character of the
    class: giving back characters never helps. *)
Lemma star_longest_run {A : Type} (k : string -> string -> option A) (s : string) :
  (forall got c rest, p c = true -> k got (String c rest) = None) ->
  star p k s = k (run_of p s) (after_run p s).
Proof.
  revert k. induction s as [| c s IH]; intros k Hk; [reflexivity |].
  simpl. destruct (p c) eqn:E; [| reflexivity].
  rewrite IH by (intros; now apply Hk).
  destruct (k (String c (run_of p s)) (after_run p s)); [reflexivity |].
  now apply Hk.
Qed.

Lemma plus_longest_run {A : Type} (k : string -> string -> option A) (s : string) :
  (forall got c rest, p c = true -> k got (String c rest) = None) ->
  plus p k s =
    if is_empty (run_of p s) then None else k (run_of p s) (after_run p s).
Proof.
  intros Hk. unfold plus. destruct s as [| c s]; [reflexivity |].
  simpl. destruct (p c) eqn:E; [| reflexivity].
  rewrite star_longest_run by (intros; now apply Hk). reflexivity.
Qed.

(** Greedy repetition stops where the rest of the pattern first
    succeeds, counting from the longest run downwards. *)
Lemma star_no_longer {A : Type} (k : string -> string -> option A) (b : string) :
  (forall b1 b2, b = b1 +:+ b2 -> b1 <> "" -> all_chars p b1 = true ->
                 k b1 b2 = None) ->
  star p k b = k "" b.
Proof.
  revert k. induction b as [| c b IH]; intros k Hk; [reflexivity |].
  simpl. destruct (p c) eqn:E; [| reflexivity].
  rewrite IH.
  - rewrite (Hk (String c "") b); [reflexivity | reflexivity | discriminate |].
    simpl. now rewrite E.
  - intros b1 b2 -> Hne Hall. apply Hk; [reflexivity | discriminate |].
    simpl. now rewrite E.
Qed.

Lemma star_gives_back {A : Type} (k : string -> string -> option A)
      (a b : string) (r : A) :
  all_chars p a = true ->
  k a b = Some r ->
  (forall b1 b2, b = b1 +:+ b2 -> b1 <> "" -> all_chars p b1 = true ->
                 k (a +:+ b1) b2 = None) ->
  star p k (a +:+ b) = Some r.
Proof.
  revert k. induction a as [| x a IH]; intros k Hall Hk Hno.
  - rewrite append_empty_l, star_no_longer; assumption.
  - rewrite append_cons. simpl in Hall |- *.
    apply andb_true_iff in Hall as [Hx Hall]. rewrite Hx.
    rewrite (IH (fun got rest => k (String x got) rest)); auto.
Qed.

End Runs.

Section MoveNumber.

(** What follows the digits in the pattern: a period and one
    white-space character. *)
Lemma period_space_after (digits s : string) (r : string * string) :
  lit "." (one isspace (fun rest => Some (digits, rest))) s = Some r <->
  exists w rest, s = String "." (String w rest) /\ isspace w = true /\
                 r = (digits, rest).
Proof.
  unfold lit, one. split.
  - destruct s as [| c s]; [discriminate |].
    destruct (Ascii.eqb_spec "." c) as [<- | _]; [| discriminate].
    destruct s as [| w s]; [discriminate |].
    destruct (isspace w) eqn:E; [| discriminate].
    intros [= <-]. now exists w, s.
  - intros (w & rest & -> & Hw & ->). rewrite Ascii.eqb_refl, Hw. reflexivity.
Qed.

Lemma move_number_at_run (s : string) :
  move_number_at s =
    if is_empty (run_of isdecimal s) then None
    else lit "." (one isspace (fun rest => Some (run_of isdecimal s, rest)))
             (after_run isdecimal s).
Proof.
  unfold move_number_at. apply plus_longest_run.
  intros got x rest Hx. unfold lit. now rewrite (decimal_not_period x Hx).
Qed.

Lemma move_number_at_spec (s digits rest : string) :
  move_number_at s = Some (digits, rest) <->
  exists w, s = digits +:+ String "." (String w rest) /\
            digits <> "" /\ all_chars isdecimal digits = true /\
            isspace w = true.
Proof.
  rewrite move_number_at_run. split.
  - destruct (run_of isdecimal s) as [| d ds] eqn:Er; [discriminate |].
    cbn [is_empty]. intros H.
    apply period_space_after in H as (w & rest' & Ha & Hw & [= Hd Hr]).
    subst digits rest'. exists w. repeat split.
    + rewrite <- Ha, <- Er. symmetry. apply run_then_rest.
    + discriminate.
    + rewrite <- Er. apply run_all_chars.
    + exact Hw.
  - intros (w & -> & Hne & Hall & Hw).
    destruct (run_of_append isdecimal digits (String w rest) "." Hall eq_refl)
      as [-> ->].
    destruct digits; [contradiction |]. cbn [is_empty].
    apply period_space_after. now exists w, rest.
Qed.

End MoveNumber.

(** ** The tag-pair pattern *)

Section TagPattern.

(** A line made of an opening bracket, a key of word characters, white
    space, a quoted value without line feed and a closing bracket
    matches, with that key and that value. *)
Lemma tag_pair_well_formed (key ws value : string) :
  key <> "" -> all_chars isword key = true ->
  ws <> "" -> all_chars isspace ws = true ->
  all_chars isdot value = true ->
  tag_pair ("[" +:+ key +:+ ws +:+ quoted value +:+ "]") = Some (key, value).
Proof.
  intros Hkey Hword Hws Hspace Hdot.
  assert (Hline : "[" +:+ key +:+ ws +:+ quoted value +:+ "]"
                  = String "[" (key +:+ ws +:+
                                String dquote (value +:+ String dquote "]"))).
  { unfold quoted. rewrite !append_cons, append_empty_l.
    now rewrite append_assoc. }
  rewrite Hline. unfold tag_pair. cbn [lit Ascii.eqb Bool.eqb].
  destruct ws as [| w ws]; [contradiction |].
  simpl in Hspace. apply andb_true_iff in Hspace as [Hw Hspace].
  assert (Hw' : isword w = false).
  { destruct (isword w) eqn:E; [| reflexivity].
    apply word_not_space in E. congruence. }
  rewrite plus_longest_run.
  2:{ intros got c rest Hc. unfold plus. now rewrite (word_not_space c Hc). }
  rewrite append_cons.
  destruct (run_of_append isword key (ws +:+ String dquote
              (value +:+ String dquote "]")) w Hword Hw') as [-> ->].
  destruct key as [| c key]; [contradiction |]. cbn [is_empty].
  rewrite plus_longest_run.
  2:{ intros got x rest Hx. unfold lit. now rewrite (space_not_dquote x Hx). }
  assert (Hall : all_chars isspace (String w ws) = true)
    by (simpl; now rewrite Hw).
  rewrite <- append_cons.
  destruct (run_of_append isspace (String w ws)
              (value +:+ String dquote "]") dquote Hall eq_refl) as [-> ->].
  cbn [is_empty lit Ascii.eqb Bool.eqb dquote ascii_of_N ascii_of_pos].
  apply star_gives_back; [assumption | reflexivity |].
  intros b1 b2 Hb Hne _. destruct b1 as [| x b1]; [contradiction |].
  rewrite append_cons in Hb. injection Hb as <- Hb.
  destruct b1 as [| y b1].
  - rewrite append_empty_l in Hb. now subst b2.
  - rewrite append_cons in Hb. injection Hb as <- Hb.
    destruct b1; [| discriminate Hb]. rewrite append_empty_l in Hb.
    now subst b2.
Qed.

End TagPattern.

(** ** Markers and the matches of [findall] *)

Section Markers.

Lemma append_eq_append (a b c d : string) :
  a +:+ b = c +:+ d ->
  (exists e, c = a +:+ e /\ b = e +:+ d) \/
  (exists e, a = c +:+ e /\ d = e +:+ b).
Proof.
  revert c. induction a as [| x a IH]; intros c H.
  - left. now exists c.
  - destruct c as [| y c].
    + right. now exists (String x a).
    + rewrite !append_cons in H. injection H as -> H.
      destruct (IH c H) as [(e & -> & ->) | (e & -> & ->)].
      * left. now exists e.
      * right. now exists e.
Qed.

Lemma ends_in_digit_append (a b : string) (c : ascii) :
  ends_in_digit (a +:+ String c b) = ends_in_digit (String c b).
Proof.
  induction a as [| x a IH]; [reflexivity |].
  rewrite append_cons, <- IH.
  destruct a; [reflexivity | now rewrite append_cons].
Qed.

Lemma ends_in_digit_all (s : string) :
  all_chars isdecimal s = true -> s <> "" -> ends_in_digit s = true.
Proof.
  induction s as [| c s IH]; [contradiction |].
  simpl all_chars. intros [Hc Hs]%andb_true_iff _.
  destruct s as [| y s]; [exact Hc |].
  change (ends_in_digit (String y s) = true). now apply IH.
Qed.

Lemma ends_in_digit_tail (c : ascii) (s : string) :
  ends_in_digit (String c s) = false -> ends_in_digit s = false.
Proof. destruct s; [reflexivity | trivial]. Qed.

Lemma no_marker_empty : no_marker "".
Proof.
  intros pre digits post (w & H & _). symmetry in H.
  rewrite <- append_assoc in H. now apply append_not_empty in H.
Qed.

(** The markers of a text that begins with a match of the pattern:
    the match itself, and the markers of what follows it. *)
Lemma marker_after_match (digits rest : string) (w : ascii)
      (pre' digits' post' : string) :
  digits <> "" -> all_chars isdecimal digits = true -> isspace w = true ->
  marker (digits +:+ String "." (String w rest)) pre' digits' post' <->
  pre' = "" /\ digits' = digits /\ post' = rest \/
  exists p, pre' = digits +:+ String "." (String w p) /\
            marker rest p digits' post'.
Proof.
  intros Hne Hall Hw. split.
  - intros (w' & Heq & Hne' & Hall' & Hw' & Hend).
    apply append_eq_append in Heq as [(e & Hpre & Hrest) | (e & Hds & Hd)].
    + destruct e as [| x e].
      * destruct digits' as [| y d]; [contradiction |].
        rewrite append_empty_l, append_cons in Hrest.
        injection Hrest as <- _. discriminate Hall'.
      * rewrite append_cons in Hrest. injection Hrest as <- Hrest.
        destruct e as [| y e].
        -- destruct digits' as [| y d]; [contradiction |].
           rewrite append_empty_l, append_cons in Hrest.
           injection Hrest as <- _. simpl in Hall'.
           rewrite (space_not_decimal w Hw) in Hall'. discriminate Hall'.
        -- rewrite append_cons in Hrest. injection Hrest as <- Hrest.
           right. exists e. split; [exact Hpre |].
           exists w'. repeat split; try assumption.
           subst pre'. rewrite ends_in_digit_append in Hend.
           now do 2 apply ends_in_digit_tail in Hend.
    + destruct pre' as [| x pre'].
      * rewrite append_empty_l in Hds. subst e. left.
        destruct (run_of_append isdecimal digits' (String w' post') "."
                    Hall' eq_refl) as [Hr Ha].
        destruct (run_of_append isdecimal digits (String w rest) "."
                    Hall eq_refl) as [Hr' Ha'].
        rewrite Hd, Hr' in Hr. rewrite Hd, Ha' in Ha.
        injection Ha as _ Hpost. now subst.
      * rewrite Hds, all_chars_append in Hall.
        apply andb_true_iff in Hall as [Hall _].
        apply ends_in_digit_all in Hall; [congruence | discriminate].
  - intros [(-> & -> & ->) | (p & -> & (w' & -> & Hne' & Hall' & Hw' & Hend))].
    + exists w. now repeat split.
    + exists w'. repeat split; try assumption.
      * now rewrite append_assoc.
      * rewrite ends_in_digit_append.
        change (ends_in_digit (String w p) = false).
        destruct p; [now apply space_not_decimal | exact Hend].
Qed.

(** The markers of a text at whose start the pattern does not match:
    those of the text without its first character. *)
Lemma marker_after_skip (c : ascii) (s pre' digits' post' : string) :
  move_number_at (String c s) = None ->
  marker (String c s) pre' digits' post' <->
  exists p, pre' = String c p /\ marker s p digits' post'.
Proof.
  intros Hnone. split.
  - intros (w' & Heq & Hne' & Hall' & Hw' & Hend).
    destruct pre' as [| x p].
    + rewrite append_empty_l in Heq.
      assert (H : move_number_at (String c s) = Some (digits', post'))
        by (apply move_number_at_spec; exists w'; now repeat split).
      congruence.
    + rewrite append_cons in Heq. injection Heq as <- ->.
      exists p. split; [reflexivity |].
      exists w'. repeat split; try assumption.
      now apply ends_in_digit_tail in Hend.
  - intros (p & -> & (w' & -> & Hne' & Hall' & Hw' & Hend)).
    exists w'. repeat split; try assumption.
    destruct p as [| y p]; [| exact Hend].
    change (isdecimal c = false).
    destruct (isdecimal c) eqn:Ec; [| reflexivity].
    rewrite append_empty_l in Hnone.
    assert (H : move_number_at (String c (digits' +:+ String "." (String w' post')))
                = Some (String c digits', post')).
    { apply move_number_at_spec. exists w'. repeat split; try assumption.
      - discriminate.
      - simpl. now rewrite Ec. }
    congruence.
Qed.

Lemma match_shortens (s digits rest : string) :
  move_number_at s = Some (digits, rest) ->
  (String.length rest < String.length s)%nat.
Proof.
  intros (w & -> & _)%move_number_at_spec.
  rewrite append_length. simpl. lia.
Qed.

(** Any amount of fuel above the length of the text gives the same
    matches. *)
Lemma findall_from_enough (fuel1 fuel2 : nat) (s : string) :
  (String.length s < fuel1)%nat -> (String.length s < fuel2)%nat ->
  findall_from fuel1 s = findall_from fuel2 s.
Proof.
  revert fuel2 s. induction fuel1 as [| fuel1 IH]; intros fuel2 s H1 H2; [lia |].
  destruct fuel2 as [| fuel2]; [lia |]. cbn [findall_from].
  destruct (move_number_at s) as [[digits rest] |] eqn:E.
  - apply match_shortens in E. f_equal. apply IH; lia.
  - destruct s as [| c s]; [reflexivity |]. simpl in H1, H2. apply IH; lia.
Qed.

(** The last match that [findall] reports is the last marker. *)
Lemma findall_last (fuel : nat) (s : string) :
  (String.length s < fuel)%nat ->
  match last (findall_from fuel s) with
  | Some digits => last_marker s digits
  | None => no_marker s
  end.
Proof.
  revert s. induction fuel as [| fuel IH]; intros s Hlen; [lia |].
  cbn [findall_from].
  destruct (move_number_at s) as [[digits rest] |] eqn:E.
  - pose proof (match_shortens _ _ _ E) as Hshort.
    apply move_number_at_spec in E as (w & -> & Hne & Hall & Hw).
    specialize (IH rest ltac:(lia)).
    rewrite last_cons.
    destruct (last (findall_from fuel rest)) as [digits' |].
    + destruct IH as (pre & post & Hm & Hlast).
      exists (digits +:+ String "." (String w pre)), post. split.
      * apply marker_after_match; try assumption. right. now exists pre.
      * intros pre' d' post' Hm'.
        apply marker_after_match in Hm' as [(-> & _) | (p & -> & Hp)];
          try assumption; [simpl; lia |].
        apply Hlast in Hp. rewrite !append_length. simpl. lia.
    + exists "", rest. split.
      * apply marker_after_match; try assumption. now left.
      * intros pre' d' post' Hm'.
        apply marker_after_match in Hm' as [(-> & _) | (p & -> & Hp)];
          try assumption; [simpl; lia |].
        now apply IH in Hp.
  - destruct s as [| c s]; [exact no_marker_empty |].
    simpl in Hlen. specialize (IH s ltac:(lia)).
    destruct (last (findall_from fuel s)) as [digits' |].
    + destruct IH as (pre & post & Hm & Hlast).
      exists (String c pre), post. split.
      * apply marker_after_skip; [assumption |]. now exists pre.
      * intros pre' d' post' Hm'.
        apply marker_after_skip in Hm' as (p & -> & Hp); [| assumption].
        apply Hlast in Hp. simpl. lia.
    + intros pre' d' post' Hm'.
      apply marker_after_skip in Hm' as (p & -> & Hp); [| assumption].
      now apply IH in Hp.
Qed.

End Markers.

(** ** The value of a run of digits *)

Section DigitRuns.








End DigitRuns.

Section ParseOutcome.



End ParseOutcome.

(** The game with the run of 4301 digits: the run is the last marker of
    the buffer, and [parse_pgn] raises. *)
Lemma long_marker_game_facts :
  last_marker (moves_text (scan_lines long_marker_game)) long_move_number /\
  String.length long_move_number = S max_str_digits /\
  parse_pgn long_marker_game = None.
Proof.
  assert (Hlen : String.length long_move_number = S max_str_digits)
    by (vm_compute; reflexivity).
  assert (Hfail : parse_pgn long_marker_game = None)
    by (vm_compute; reflexivity).
  split; [| split; [exact Hlen | exact Hfail]].
  set (buf := moves_text (scan_lines long_marker_game)).
  pose proof (findall_last (S (String.length buf)) buf ltac:(lia)) as Hfind.
  assert (E : last (findall_from (S (String.length buf)) buf)
              = Some long_move_number) by (vm_compute; reflexivity).
  now rewrite E in Hfind.
Qed.

(** C7 does not hold of the code for a move number of more than 4300
    digits.  In [long_marker_game] the last marker of the movetext
    buffer is a run of 4301 digits, whose value the claim gives as the
    move count; [parse_pgn] returns no count there: its [int()] raises
    a [ValueError] that nothing catches. *)
Theorem move_count_long_marker_raises :
  last_marker (moves_text (scan_lines long_marker_game)) long_move_number /\
  String.length long_move_number = S max_str_digits /\
  parse_pgn long_marker_game = None.
Proof. exact long_marker_game_facts. Qed.

(** * Further properties of the analyser *)

(** ** When the analysis fails *)

Section WhenItFails.

Lemma analyze_file_fields
      (username folder file : string) (lines : list string) (g : game) :
  analyze_file username folder file lines = Some g ->
  Filename g = file /\ Folder g = folder /\
  exists hdrs, parse_pgn lines = Some (hdrs, MoveCount g).
Proof.
  unfold analyze_file.
  destruct (parse_pgn lines) as [[hdrs n] |]; [| discriminate].
  cbn [mbind option_bind]. intros [= <-]. cbn. eauto.
Qed.

Lemma analyze_file_none
      (username folder file : string) (lines : list string) :
  analyze_file username folder file lines = None <-> parse_pgn lines = None.
Proof.
  unfold analyze_file. destruct (parse_pgn lines) as [[hdrs n] |];
    cbn [mbind option_bind]; split; congruence.
Qed.

Lemma analyze_files_records (username root : string)
      (files : list (string * list string)) (games : list game) :
  analyze_files username root files = Some games ->
  map (fun g => (Folder g, Filename g)) games
  = map (fun f => (basename root, fst f))
        (List.filter (fun f => is_pgn_file (fst f)) files).
Proof.
  revert games. induction files as [| [file lines] files IH]; intros games.
  - now intros [= <-].
  - cbn [analyze_files List.filter fst].
    destruct (is_pgn_file file); [| apply IH].
    destruct (analyze_file username (basename root) file lines) as [g |] eqn:Eg;
      [| discriminate].
    destruct (analyze_files username root files) as [gs |]; [| discriminate].
    cbn [mbind option_bind]. intros [= <-].
    apply analyze_file_fields in Eg as (Hfile & Hfolder & _).
    cbn [map fst]. now rewrite Hfile, Hfolder, (IH gs eq_refl).
Qed.

Lemma analyze_files_some (username root : string)
      (files : list (string * list string)) :
  (forall file lines,
      In (file, lines) files -> is_pgn_file file = true ->
      parse_pgn lines <> None) ->
  exists games, analyze_files username root files = Some games.
Proof.
  induction files as [| [file lines] files IH]; intros Hall.
  - now exists [].
  - destruct IH as [games Hgames].
    { intros f l Hin. apply (Hall f l). now right. }
    cbn [analyze_files]. destruct (is_pgn_file file) eqn:Ep; [| now exists games].
    destruct (analyze_file username (basename root) file lines) as [g |] eqn:Eg.
    + rewrite Hgames. cbn. now exists (g :: games).
    + apply analyze_file_none in Eg.
      destruct (Hall file lines (or_introl eq_refl) Ep Eg).
Qed.

End WhenItFails.



(** X2. The loops of [main] over a directory walk read exactly the
    files whose name ends in ".pgn" up to the case of the letters: when
    they complete, they have made one record for each such file, in the
    order of the walk, the folder of a record being the last component
    of the path of its directory; and they do complete when [parse_pgn]
    returns for each of these files. *)
Theorem analyze_walk_one_record_per_pgn_file
        (username : string)
        (walk : list (string * list (string * list string))) :
  (forall games,
      analyze_walk username walk = Some games ->
      map (fun g => (Folder g, Filename g)) games = pgn_files_of walk) /\
  ((forall root files file lines,
       In (root, files) walk -> In (file, lines) files ->
       is_pgn_file file = true -> parse_pgn lines <> None) ->
   exists games, analyze_walk username walk = Some games).
Proof.
  split.
  - induction walk as [| [root files] walk IH]; intros games.
    + now intros [= <-].
    + cbn [analyze_walk].
      destruct (analyze_files username root files) as [gs |] eqn:Eg;
        [| discriminate].
      destruct (analyze_walk username walk) as [gs' |]; [| discriminate].
      cbn [mbind option_bind]. intros [= <-].
      unfold pgn_files_of in *. cbn [flat_map fst snd].
      now rewrite map_app, (analyze_files_records _ _ _ _ Eg), (IH gs' eq_refl).
  - induction walk as [| [root files] walk IH]; intros Hall.
    + now exists [].
    + destruct IH as [gs' Hgs'].
      { intros r fs f l Hin. apply (Hall r fs f l). now right. }
      destruct (analyze_files_some username root files) as [gs Hgs].
      { intros f l. apply (Hall root files f l). now left. }
      cbn [analyze_walk]. rewrite Hgs, Hgs'. cbn. now exists (gs ++ gs')%list.
Qed.

Lemma analyze_walk_one_record_per_pgn_file_witness :
  let walk := [ ("chess_games", [ ("notes.txt", [ "hello" ]) ]);
                ("chess_games/win", [ ("a.PGN", bob_game); ("b.txt", []) ]) ] in
  exists games,
    analyze_walk "bob" walk = Some games /\
    map (fun g => (Folder g, Filename g)) games = [ ("win", "a.PGN") ].
Proof.
  intros walk.
  destruct (proj2 (analyze_walk_one_record_per_pgn_file "bob" walk))
    as [games Hgames].
  { intros root files file lines Hwalk Hfile Hpgn.
    destruct Hwalk as [[= <- <-] | [[= <- <-] | []]].
    - destruct Hfile as [[= <- <-] | []]. discriminate Hpgn.
    - destruct Hfile as [[= <- <-] | [[= <- <-] | []]];
        [vm_compute; discriminate | discriminate Hpgn]. }
  exists games. split; [exact Hgames |].
  exact (proj1 (analyze_walk_one_record_per_pgn_file "bob" walk) games Hgames).
Defined.

(** ** White space around a line *)

Section WhiteSpace.
Variable sp : ascii -> bool.

Lemma lstrip_with_append (s t : string) :
  lstrip_with sp (s +:+ t) =
    if all_chars sp s then lstrip_with sp t else lstrip_with sp s +:+ t.
Proof.
  induction s as [| c s IH]; [reflexivity |].
  rewrite append_cons. simpl. destruct (sp c); [exact IH | reflexivity].
Qed.

Lemma lstrip_with_all (s : string) :
  all_chars sp s = true -> lstrip_with sp s = "".
Proof.
  induction s as [| c s IH]; [reflexivity |]. simpl.
  intros [Hc Hs]%andb_true_iff. rewrite Hc. now apply IH.
Qed.

Lemma rstrip_with_all (s : string) :
  all_chars sp s = true -> rstrip_with sp s = "".
Proof.
  induction s as [| c s IH]; [reflexivity |]. simpl.
  intros [Hc Hs]%andb_true_iff. now rewrite Hc, (IH Hs).
Qed.

Lemma rstrip_with_append (s w : string) :
  all_chars sp w = true -> rstrip_with sp (s +:+ w) = rstrip_with sp s.
Proof.
  intros Hw. induction s as [| c s IH].
  - rewrite append_empty_l. now apply rstrip_with_all.
  - rewrite append_cons. simpl. now rewrite IH.
Qed.

Lemma strip_with_padded (w1 s w2 : string) :
  all_chars sp w1 = true -> all_chars sp w2 = true ->
  strip_with sp (w1 +:+ s +:+ w2) = strip_with sp s.
Proof.
  intros H1 H2. unfold strip_with.
  rewrite lstrip_with_append, H1, lstrip_with_append.
  destruct (all_chars sp s) eqn:Hs.
  - rewrite (lstrip_with_all s Hs), (lstrip_with_all w2 H2). reflexivity.
  - now apply rstrip_with_append.
Qed.

End WhiteSpace.

Lemma scan_line_strip (st : scan_state) (a b : string) :
  strip a = strip b -> scan_line st a = scan_line st b.
Proof. unfold scan_line. now intros ->. Qed.

Lemma scan_lines_strip (lines lines' : list string) :
  Forall2 (fun a b => strip a = strip b) lines lines' ->
  scan_lines lines = scan_lines lines'.
Proof.
  intros H. unfold scan_lines. generalize scan_init.
  induction H as [| a b lines lines' Hab _ IH]; intros st; [reflexivity |].
  cbn [fold_left]. rewrite (scan_line_strip st a b Hab). apply IH.
Qed.

(** X3. White space in front of a line or behind it, such as the line
    feed or the carriage return that ends it, never changes what
    [parse_pgn] returns. *)
Theorem parse_pgn_ignores_padding (lines lines' : list string) :
  Forall2 padded lines lines' -> parse_pgn lines' = parse_pgn lines.
Proof.
  intros H. unfold parse_pgn.
  rewrite (scan_lines_strip lines' lines); [reflexivity |].
  induction H as [| a b lines lines' (w1 & w2 & H1 & H2 & ->) _ IH];
    constructor; [| exact IH].
  unfold strip. now apply strip_with_padded.
Qed.

Lemma parse_pgn_ignores_padding_witness :
  let crlf := String (ascii_of_N 13) (String (ascii_of_N 10) "") in
  let lines' := map (fun l => "  " +:+ l +:+ crlf) bob_game in
  Forall2 padded bob_game lines' /\ parse_pgn lines' = parse_pgn bob_game.
Proof.
  intros crlf lines'.
  assert (H : Forall2 padded bob_game lines').
  { unfold lines', bob_game. cbn [map].
    repeat (constructor; [exists "  ", crlf; now repeat split |]).
    constructor. }
  split; [exact H | exact (parse_pgn_ignores_padding _ _ H)].
Defined.

(** ** What precedes the first tag *)

Lemma scan_lines_no_tag (pre : list string) :
  Forall (fun raw => is_tag_line raw = false) pre ->
  scan_lines pre = scan_init.
Proof.
  induction pre as [| raw pre IH] using rev_ind; [reflexivity |].
  intros [Hpre Hraw]%Forall_app. rewrite scan_lines_snoc, (IH Hpre).
  apply Forall_inv in Hraw. cbn beta in Hraw.
  destruct (line_kind raw) as [Hk | [Hk | Hk]].
  - rewrite scan_line_bracketed by assumption.
    destruct (tag_pair (strip raw)) as [[key value] |] eqn:E; [| reflexivity].
    assert (is_tag_line raw = true)
      by (apply is_tag_line_bracketed; [assumption | rewrite E; eauto]).
    congruence.
  - rewrite scan_line_blank by assumption. reflexivity.
  - rewrite scan_line_text by assumption. reflexivity.
Qed.

(** X4. Whatever precedes the first line that records a tag is ignored:
    blank lines, lines of text and bracketed lines that do not match
    the tag pattern leave no trace in the tags or in the move count. *)
Theorem lines_before_first_tag_ignored (pre lines : list string) :
  Forall (fun raw => is_tag_line raw = false) pre ->
  scan_lines (pre ++ lines) = scan_lines lines /\
  parse_pgn (pre ++ lines) = parse_pgn lines.
Proof.
  intros Hpre.
  assert (H : scan_lines (pre ++ lines) = scan_lines lines).
  { unfold scan_lines at 1. rewrite fold_left_app.
    fold (scan_lines pre). now rewrite (scan_lines_no_tag pre Hpre). }
  split; [exact H |]. unfold parse_pgn. now rewrite H.
Qed.

Lemma lines_before_first_tag_ignored_witness :
  let pre := [ ""; "1. e4 e5 2. Nf3"; "[Event]"; "   " ] in
  Forall (fun raw => is_tag_line raw = false) pre /\
  parse_pgn (pre ++ bob_game) = parse_pgn bob_game.
Proof.
  intros pre.
  assert (H : Forall (fun raw => is_tag_line raw = false) pre)
    by (repeat constructor).
  split; [exact H | exact (proj2 (lines_before_first_tag_ignored pre bob_game H))].
Defined.

(** ** The tags that the scanner keeps *)

Section Tags.

Lemma tag_of_not_bracketed (raw : string) :
  is_bracketed raw = false -> tag_of raw = None.
Proof. unfold tag_of. now intros ->. Qed.

(** The effect of one more line on the value kept under a key. *)
Lemma headers_snoc (pre : list string) (raw key : string) :
  headers (scan_lines (pre ++ [raw])) !! key =
    match tag_of raw with
    | Some (k, v) =>
        if String.eqb k key then Some v else headers (scan_lines pre) !! key
    | None => headers (scan_lines pre) !! key
    end.
Proof.
  rewrite scan_lines_snoc. destruct (line_kind raw) as [Hk | [Hk | Hk]].
  - rewrite scan_line_bracketed by assumption. unfold tag_of. rewrite Hk.
    destruct (tag_pair (strip raw)) as [[k v] |]; [| reflexivity]. cbn.
    destruct (String.eqb_spec k key) as [-> | Hne].
    + apply lookup_insert_eq.
    + now apply lookup_insert_ne.
  - rewrite scan_line_blank, tag_of_not_bracketed
      by (try apply blank_not_bracketed; assumption).
    now destruct (bool_decide _).
  - rewrite scan_line_text, tag_of_not_bracketed
      by (try apply text_line_not_bracketed; assumption).
    now destruct (in_moves _).
Qed.

Lemma not_records_snoc (raw key : string) :
  ~ records key raw ->
  forall pre, headers (scan_lines (pre ++ [raw])) !! key
              = headers (scan_lines pre) !! key.
Proof.
  intros Hno pre. rewrite headers_snoc.
  destruct (tag_of raw) as [[k v] |] eqn:E; [| reflexivity].
  destruct (String.eqb_spec k key) as [-> | _]; [| reflexivity].
  destruct Hno. now exists v.
Qed.

Lemma headers_unrecorded (base lines : list string) (key : string) :
  Forall (fun raw => ~ records key raw) lines ->
  headers (scan_lines (base ++ lines)) !! key = headers (scan_lines base) !! key.
Proof.
  induction lines as [| raw lines IH] using rev_ind; intros H.
  - now rewrite app_nil_r.
  - apply Forall_app in H as [Hl Hr]. apply Forall_inv in Hr.
    rewrite app_assoc, (not_records_snoc raw key Hr). now apply IH.
Qed.

Lemma headers_last_tag (lines : list string) (key : string) :
  match headers (scan_lines lines) !! key with
  | Some value =>
      exists pre raw post,
        lines = (pre ++ raw :: post)%list /\
        tag_of raw = Some (key, value) /\
        Forall (fun r => ~ records key r) post
  | None => Forall (fun r => ~ records key r) lines
  end.
Proof.
  induction lines as [| raw lines IH] using rev_ind; [constructor |].
  rewrite headers_snoc.
  assert (Hother :
    ~ records key raw ->
    match headers (scan_lines lines) !! key with
    | Some value =>
        exists pre raw0 post,
          (lines ++ [raw])%list = (pre ++ raw0 :: post)%list /\
          tag_of raw0 = Some (key, value) /\
          Forall (fun r => ~ records key r) post
    | None => Forall (fun r => ~ records key r) (lines ++ [raw])
    end).
  { intros Hno. destruct (headers (scan_lines lines) !! key) as [value |].
    - destruct IH as (pre & raw0 & post & -> & Htag & Hpost).
      exists pre, raw0, (post ++ [raw])%list. split; [| split].
      + now rewrite <- app_assoc.
      + exact Htag.
      + apply Forall_app. split; [exact Hpost | now constructor].
    - apply Forall_app. split; [exact IH | now constructor]. }
  destruct (tag_of raw) as [[k v] |] eqn:E.
  - destruct (String.eqb_spec k key) as [-> | Hne].
    + exists lines, raw, []. now repeat split.
    + apply Hother. intros [value Hv]. congruence.
  - apply Hother. intros [value Hv]. congruence.
Qed.

End Tags.

(** X5. The value that [parse_pgn] keeps under a key is the one of the
    last line that records that key, and a key has no value exactly
    when no line records it; lines that record other keys or nothing,
    malformed tag lines among them, do not interfere. *)
Theorem headers_last_tag_wins (lines : list string) (key : string) :
  (forall value,
      headers (scan_lines lines) !! key = Some value <->
      exists pre raw post,
        lines = (pre ++ raw :: post)%list /\
        tag_of raw = Some (key, value) /\
        Forall (fun r => ~ records key r) post) /\
  (headers (scan_lines lines) !! key = None <->
   Forall (fun r => ~ records key r) lines).
Proof.
  pose proof (headers_last_tag lines key) as H. split; [intros value |]; split.
  - intros E. now rewrite E in H.
  - intros (pre & raw & post & -> & Htag & Hpost).
    change (pre ++ raw :: post)%list with (pre ++ [raw] ++ post)%list.
    rewrite app_assoc, (headers_unrecorded _ post key Hpost), headers_snoc, Htag.
    now rewrite String.eqb_refl.
  - intros E. now rewrite E in H.
  - intros Hall. exact (headers_unrecorded [] lines key Hall).
Qed.

Lemma headers_last_tag_wins_witness :
  let lines := [ "[White " +:+ quoted "bob" +:+ "]";
                 "[White " +:+ quoted "bob";
                 "[White " +:+ quoted "carol" +:+ "]";
                 "[Black " +:+ quoted "alice" +:+ "]" ] in
  headers (scan_lines lines) !! "White" = Some "carol".
Proof.
  intros lines.
  apply (proj1 (headers_last_tag_wins lines "White") "carol").
  exists [ "[White " +:+ quoted "bob" +:+ "]"; "[White " +:+ quoted "bob" ],
         ("[White " +:+ quoted "carol" +:+ "]"),
         [ "[Black " +:+ quoted "alice" +:+ "]" ].
  split; [reflexivity | split; [vm_compute; reflexivity |]].
  constructor; [| constructor].
  intros [value H]. vm_compute in H. discriminate H.
Defined.

(** ** The content of the movetext buffer *)

Section Movetext.

Lemma movetext_of_cons (raw : string) (lines : list string) :
  movetext_of (raw :: lines) =
    if is_text_line raw then " " +:+ strip raw +:+ movetext_of lines
    else movetext_of lines.
Proof. unfold movetext_of. cbn [List.filter]. now destruct (is_text_line raw). Qed.

Lemma scan_while_in_moves (post : list string) (st : scan_state) (buf : string) :
  in_moves st = true -> moves_text st = buf ->
  in_moves (fold_left scan_line post st) = true /\
  moves_text (fold_left scan_line post st) = buf +:+ movetext_of post.
Proof.
  revert st buf. induction post as [| raw post IH]; intros st buf Hin Hbuf.
  - cbn. split; [exact Hin | now rewrite append_empty_r].
  - cbn [fold_left]. rewrite movetext_of_cons.
    destruct (line_kind raw) as [Hk | [Hk | Hk]].
    + assert (Ht : is_text_line raw = false)
        by (unfold is_text_line; now rewrite Hk).
      rewrite Ht, scan_line_bracketed by assumption.
      destruct (tag_pair (strip raw)) as [[k v] |]; apply IH; assumption.
    + assert (Ht : is_text_line raw = false)
        by (unfold is_text_line; rewrite Hk, andb_false_r; reflexivity).
      rewrite Ht, scan_line_blank by assumption.
      destruct (bool_decide _); apply IH; assumption || reflexivity.
    + rewrite Hk, scan_line_text, Hin by assumption.
      rewrite <- !append_assoc. apply IH; [reflexivity |].
      cbn [moves_text]. rewrite Hbuf. now rewrite !append_assoc.
Qed.

Lemma blank_between_gives_blank_after (lines : list string) :
  blank_between_tag_and_text lines -> blank_after_tag lines.
Proof. intros (i & j & k & Hij & _ & Hi & Hj & _). now exists i, j. Qed.

End Movetext.

(** X6. The movetext buffer is made of the lines of text that follow
    the first blank line met after a tag was recorded, each trimmed and
    preceded by one space, in their order; blank and bracketed lines
    among them add nothing. *)
Theorem movetext_after_first_blank (pre post : list string) (blank : string) :
  tag_recorded pre -> ~ blank_after_tag pre -> is_blank blank = true ->
  moves_text (scan_lines (pre ++ blank :: post)) = movetext_of post.
Proof.
  intros Htag Hfirst Hblank.
  destruct (scan_invariant pre) as (Hh & _ & Ht).
  assert (Hempty : moves_text (scan_lines pre) = "").
  { destruct (string_dec (moves_text (scan_lines pre)) "") as [E | E];
      [exact E |].
    destruct Hfirst. now apply blank_between_gives_blank_after, Ht. }
  apply Hh in Htag.
  unfold scan_lines at 1. rewrite fold_left_app. fold (scan_lines pre).
  cbn [fold_left]. rewrite scan_line_blank by assumption.
  rewrite (bool_decide_eq_true_2 _ Htag).
  destruct (scan_while_in_moves post
              {| headers := headers (scan_lines pre);
                 moves_text := moves_text (scan_lines pre);
                 in_moves := true |} "" eq_refl Hempty) as [_ H].
  exact H.
Qed.

Lemma movetext_after_first_blank_witness :
  let pre := [ "[White " +:+ quoted "bob" +:+ "]" ] in
  let post := [ "1. e4 e5"; ""; "[Result " +:+ quoted "1-0" +:+ "]";
                "  2. Nf3 Nc6  " ] in
  tag_recorded pre /\ ~ blank_after_tag pre /\ is_blank "  " = true /\
  moves_text (scan_lines (pre ++ "  " :: post)) = " 1. e4 e5 2. Nf3 Nc6".
Proof.
  intros pre post.
  assert (Htag : tag_recorded pre).
  { exists 0%nat, ("[White " +:+ quoted "bob" +:+ "]").
    split; [reflexivity | vm_compute; reflexivity]. }
  assert (Hfirst : ~ blank_after_tag pre).
  { intros (i & j & Hij & _ & Hj). apply has_line_lt in Hj. simpl in Hj. lia. }
  assert (Hblank : is_blank "  " = true) by reflexivity.
  split; [exact Htag | split; [exact Hfirst | split; [exact Hblank |]]].
  exact (movetext_after_first_blank pre post "  " Htag Hfirst Hblank).
Defined.

(** ** Writing a tag and reading it back *)

Section TagRoundTrip.

Lemma rstrip_with_last (sp : ascii -> bool) (s : string) (c : ascii) :
  sp c = false ->
  rstrip_with sp (s +:+ String c "") = s +:+ String c "".
Proof.
  intros Hc. induction s as [| x s IH].
  - rewrite append_empty_l. simpl. now rewrite Hc.
  - rewrite append_cons. simpl. rewrite IH.
    destruct s; [rewrite append_empty_l | rewrite append_cons];
      now rewrite andb_false_r.
Qed.

Lemma endswith_append (a p : string) : endswith (a +:+ p) p = true.
Proof.
  induction a as [| x a IH].
  - rewrite append_empty_l. destruct p; [reflexivity |].
    cbn [endswith]. now rewrite String.eqb_refl.
  - rewrite append_cons. simpl. rewrite IH. apply orb_true_r.
Qed.

Lemma tag_line_shape (key value : string) :
  tag_line key value
  = String "[" (key +:+ " " +:+ String dquote (value +:+ String dquote "")) +:+ "]".
Proof.
  unfold tag_line, quoted.
  rewrite (append_cons "[" ""), append_empty_l, (append_cons "[").
  f_equal. now rewrite !append_assoc.
Qed.

Lemma strip_tag_line (key value : string) :
  strip (tag_line key value) = tag_line key value.
Proof.
  rewrite tag_line_shape. unfold strip, strip_with.
  rewrite append_cons. cbn [lstrip_with].
  change (isspace "[") with false. cbv iota.
  rewrite <- append_cons. now apply rstrip_with_last.
Qed.

Lemma is_bracketed_tag_line (key value : string) :
  is_bracketed (tag_line key value) = true.
Proof.
  unfold is_bracketed. rewrite strip_tag_line, tag_line_shape.
  rewrite endswith_append, andb_true_r. rewrite append_cons. reflexivity.
Qed.

Lemma tag_of_tag_line (key value : string) :
  key <> "" -> all_chars isword key = true -> all_chars isdot value = true ->
  tag_of (tag_line key value) = Some (key, value).
Proof.
  intros Hne Hword Hdot. unfold tag_of.
  rewrite is_bracketed_tag_line, strip_tag_line.
  now apply (tag_pair_well_formed key " " value).
Qed.

(** Greedy repetition succeeds only on a split of the text whose first
    part is in the class. *)
Lemma star_some {A : Type} (p : ascii -> bool)
      (k : string -> string -> option A) (s : string) (r : A) :
  star p k s = Some r ->
  exists a b, s = a +:+ b /\ all_chars p a = true /\ k a b = Some r.
Proof.
  revert k. induction s as [| c s IH]; intros k H.
  - now exists "", "".
  - simpl in H. destruct (p c) eqn:E.
    + destruct (star p (fun got rest => k (String c got) rest) s) as [r' |] eqn:Es.
      * injection H as ->. apply IH in Es as (a & b & -> & Ha & Hk).
        exists (String c a), b. repeat split; [| exact Hk].
        simpl. now rewrite E.
      * now exists "", (String c s).
    + now exists "", (String c s).
Qed.

Lemma tag_pair_sound (line key value : string) :
  tag_pair line = Some (key, value) ->
  exists ws rest,
    line = "[" +:+ key +:+ ws +:+ quoted value +:+ "]" +:+ rest /\
    key <> "" /\ all_chars isword key = true /\
    ws <> "" /\ all_chars isspace ws = true /\
    all_chars isdot value = true.
Proof.
  unfold tag_pair. intros H.
  destruct line as [| c l1]; [discriminate H |]. cbn [lit] in H.
  destruct (Ascii.eqb_spec "[" c) as [<- | _]; [| discriminate H].
  rewrite plus_longest_run in H.
  2:{ intros got x rest Hx. unfold plus. now rewrite (word_not_space x Hx). }
  pose proof (run_then_rest isword l1) as Hl1.
  pose proof (run_all_chars isword l1) as Hword.
  destruct (run_of isword l1) as [| k0 k] eqn:Ek; [discriminate H |].
  cbn [is_empty] in H.
  rewrite plus_longest_run in H.
  2:{ intros got x rest Hx. unfold lit. now rewrite (space_not_dquote x Hx). }
  pose proof (run_then_rest isspace (after_run isword l1)) as Hl2.
  pose proof (run_all_chars isspace (after_run isword l1)) as Hspace.
  destruct (run_of isspace (after_run isword l1)) as [| w0 w] eqn:Ew;
    [discriminate H |].
  cbn [is_empty] in H.
  destruct (after_run isspace (after_run isword l1)) as [| q l3] eqn:E3;
    [discriminate H |].
  cbn [lit] in H.
  destruct (Ascii.eqb_spec dquote q) as [<- | _]; [| discriminate H].
  apply star_some in H as (a & b & -> & Hdot & Hk).
  destruct b as [| q' b]; [discriminate Hk |]. cbn [lit] in Hk.
  destruct (Ascii.eqb_spec dquote q') as [<- | _]; [| discriminate Hk].
  destruct b as [| q'' b]; [discriminate Hk |]. cbn [lit] in Hk.
  destruct (Ascii.eqb_spec "]" q'') as [<- | _]; [| discriminate Hk].
  injection Hk as <- <-.
  exists (String w0 w), b. repeat split; try assumption; try discriminate.
  rewrite <- Hl1, <- Hl2. unfold quoted.
  rewrite !append_cons, !append_empty_l, !append_assoc, !append_cons.
  now rewrite append_empty_l.
Qed.

End TagRoundTrip.

(** X7. A tag written as a PGN tag line (an opening bracket, a key made
    of word characters, a space, the value between double quotes, a
    closing bracket) is read back: after that line the value is kept
    under the key, whatever lines came before and whatever the value
    contains besides line feeds, double quotes and brackets
    included. *)
Theorem tag_line_round_trip (pre : list string) (key value : string) :
  key <> "" -> all_chars isword key = true -> all_chars isdot value = true ->
  headers (scan_lines (pre ++ [tag_line key value])) !! key = Some value.
Proof.
  intros Hne Hword Hdot.
  rewrite headers_snoc, (tag_of_tag_line key value Hne Hword Hdot).
  now rewrite String.eqb_refl.
Qed.

Lemma tag_line_round_trip_witness :
  let value := "a " +:+ quoted "b" +:+ "] c" in
  "Event_1" <> "" /\ all_chars isword "Event_1" = true /\
  all_chars isdot value = true /\
  headers (scan_lines (bob_game ++ [tag_line "Event_1" value])) !! "Event_1"
  = Some value.
Proof.
  intros value.
  assert (Hne : "Event_1" <> "") by discriminate.
  assert (Hword : all_chars isword "Event_1" = true) by reflexivity.
  assert (Hdot : all_chars isdot value = true) by reflexivity.
  split; [exact Hne | split; [exact Hword | split; [exact Hdot |]]].
  exact (tag_line_round_trip bob_game "Event_1" value Hne Hword Hdot).
Defined.

(** X8. Every key that [parse_pgn] keeps is a non-empty run of word
    characters and every value is free of line feeds; both come from a
    line that, once trimmed, is an opening bracket, the key, white
    space, the value between double quotes and a closing bracket,
    possibly followed by more text. *)
Theorem kept_tags_are_well_formed (lines : list string) (key value : string) :
  headers (scan_lines lines) !! key = Some value ->
  key <> "" /\ all_chars isword key = true /\ all_chars isdot value = true /\
  exists raw ws rest,
    In raw lines /\
    strip raw = "[" +:+ key +:+ ws +:+ quoted value +:+ "]" +:+ rest /\
    ws <> "" /\ all_chars isspace ws = true.
Proof.
  intros H. pose proof (headers_last_tag lines key) as Hlast.
  rewrite H in Hlast. destruct Hlast as (pre & raw & post & -> & Htag & _).
  unfold tag_of in Htag. destruct (is_bracketed raw); [| discriminate Htag].
  apply tag_pair_sound in Htag
    as (ws & rest & Hline & Hne & Hword & Hws & Hspace & Hdot).
  repeat split; try assumption.
  exists raw, ws, rest. repeat split; try assumption.
  apply in_or_app. right. now left.
Qed.

Lemma kept_tags_are_well_formed_witness :
  headers (scan_lines bob_game) !! "WhiteElo" = Some "1500" /\
  all_chars isword "WhiteElo" = true /\ all_chars isdot "1500" = true.
Proof.
  assert (H : headers (scan_lines bob_game) !! "WhiteElo" = Some "1500")
    by (vm_compute; reflexivity).
  destruct (kept_tags_are_well_formed bob_game "WhiteElo" "1500" H)
    as (_ & Hword & Hdot & _).
  split; [exact H | split; [exact Hword | exact Hdot]].
Defined.

(** ** The opening resolver, by the first letter of the code *)

Section OpeningLetters.

Lemma catalog_items (key name : string) :
  In (key, name) ECO_OPENINGS ->
  name <> "Unknown" /\
  exists c rest, key = String c rest /\ In c catalog_letters.
Proof.
  intros H.
  assert (Hall : forallb (fun item =>
                   negb (String.eqb (snd item) "Unknown") &&
                   match fst item with
                   | String c _ => existsb (Ascii.eqb c) catalog_letters
                   | EmptyString => false
                   end) ECO_OPENINGS = true) by reflexivity.
  rewrite forallb_forall in Hall. specialize (Hall _ H). cbn [fst snd] in Hall.
  apply andb_true_iff in Hall as [Hname Hkey]. split.
  - apply negb_true_iff in Hname. now apply String.eqb_neq.
  - destruct key as [| c rest]; [discriminate Hkey |].
    exists c, rest. split; [reflexivity |].
    apply existsb_exists in Hkey as (x & Hx & Heq).
    apply Ascii.eqb_eq in Heq. now subst.
Qed.

Lemma first_where_in {B : Type} (test : string -> bool)
      (items : list (string * B)) (value : B) :
  first_where test items = Some value ->
  exists key, In (key, value) items /\ test key = true.
Proof.
  induction items as [| [k v] items IH]; simpl; [discriminate |].
  destruct (test k) eqn:E.
  - intros [= ->]. exists k. split; [now left | exact E].
  - intros H. destruct (IH H) as (key & Hin & Ht). exists key.
    split; [now right | exact Ht].
Qed.

Lemma startswith_first (key prefix : string) (c : ascii) :
  startswith key (String c prefix) = true -> begins_with (String c "") key.
Proof.
  destruct key as [| x key]; simpl; [discriminate |].
  intros [Hx _]%andb_true_iff. apply Ascii.eqb_eq in Hx. subst x.
  now exists key.
Qed.

(** The name found for a code belongs to a key with the first letter of
    the code, unless it is "Unknown". *)
Lemma opening_name_source (c : ascii) (rest : string) :
  let name := get_opening_name (Some (String c rest)) in
  (exists key, In (key, name) ECO_OPENINGS /\ begins_with (String c "") key) \/
  first_startswith ECO_OPENINGS (String c "") = None /\ name = "Unknown".
Proof.
  cbn zeta. unfold get_opening_name.
  destruct (dict_get ECO_OPENINGS (String c rest)) as [name |] eqn:Eg.
  - left. exists (String c rest). split; [now apply dict_get_some |].
    now exists rest.
  - cbn [prefix_fallback].
    destruct (first_startswith ECO_OPENINGS (slice_to 2 (String c rest)))
      as [v2 |] eqn:E2.
    + left. apply first_where_in in E2 as (key & Hin & Ht).
      exists key. split; [exact Hin |]. cbn [slice_to] in Ht.
      now apply startswith_first in Ht.
    + destruct (first_startswith ECO_OPENINGS (slice_to 1 (String c rest)))
        as [v1 |] eqn:E1.
      * left. apply first_where_in in E1 as (key & Hin & Ht).
        exists key. split; [exact Hin |]. cbn [slice_to] in Ht.
        now apply startswith_first in Ht.
      * right. now split.
Qed.

Lemma letter_has_entry (c : ascii) :
  In c catalog_letters -> first_startswith ECO_OPENINGS (String c "") <> None.
Proof.
  intros H. cbn in H.
  repeat (destruct H as [<- | H]; [discriminate |]). destruct H.
Qed.

End OpeningLetters.

(** X9. What [get_opening_name] answers depends on the first letter of
    the code: for a code that begins with one of A to E the answer is
    never "Unknown" but a name that the catalog gives to a key with the
    same first letter, whatever follows the letter; for any other
    non-empty code the answer is "Unknown". *)
Theorem opening_name_by_first_letter (c : ascii) (rest : string) :
  let name := get_opening_name (Some (String c rest)) in
  (In c catalog_letters ->
   exists key, In (key, name) ECO_OPENINGS /\ begins_with (String c "") key) /\
  (name = "Unknown" <-> ~ In c catalog_letters).
Proof.
  cbn zeta. pose proof (opening_name_source c rest) as Hsrc. cbn zeta in Hsrc.
  split; [| split].
  - intros Hc. destruct Hsrc as [H | [Hnone _]]; [exact H |].
    now destruct (letter_has_entry c Hc).
  - intros Hname Hc. destruct Hsrc as [(key & Hin & _) | [Hnone _]].
    + apply catalog_items in Hin as [Hne _]. contradiction.
    + now destruct (letter_has_entry c Hc).
  - intros Hc. destruct Hsrc as [(key & Hin & (t & Hkey)) | [_ H]]; [| exact H].
    apply catalog_items in Hin as (_ & c' & r & -> & Hc').
    rewrite append_cons in Hkey. injection Hkey as -> _. contradiction.
Qed.

Lemma opening_name_by_first_letter_witness :
  In "B"%char catalog_letters /\
  get_opening_name (Some "Bzz9") = "Uncommon King's Pawn Opening" /\
  exists key, In (key, get_opening_name (Some "Bzz9")) ECO_OPENINGS /\
              begins_with "B" key.
Proof.
  assert (H : In "B"%char catalog_letters) by (cbn; tauto).
  split; [exact H | split; [reflexivity |]].
  exact (proj1 (opening_name_by_first_letter "B" "zz9") H).
Defined.

(** ** The record of one game *)

(** X10. Seen from the two sides of the board the rating differential
    has opposite signs: for two user names of which one is taken to
    play White and the other Black in the same game, the differentials
    are the negative of each other. *)
Theorem rating_diff_opposite_sides
        (hdrs : gmap string string) (user1 user2 : string) :
  color_played hdrs user1 <> color_played hdrs user2 ->
  rating_diff hdrs (color_played hdrs user1)
  = - rating_diff hdrs (color_played hdrs user2).
Proof.
  intros Hne. unfold rating_diff.
  destruct (color_played_cases hdrs user1) as [H1 | H1],
           (color_played_cases hdrs user2) as [H2 | H2];
    rewrite H1, H2 in *; try contradiction;
    destruct (elo hdrs "WhiteElo"), (elo hdrs "BlackElo"); cbn; lia.
Qed.

Lemma rating_diff_opposite_sides_witness :
  color_played (headers (scan_lines bob_game)) "Bob"
  <> color_played (headers (scan_lines bob_game)) "alice" /\
  rating_diff (headers (scan_lines bob_game))
              (color_played (headers (scan_lines bob_game)) "Bob")
  = - rating_diff (headers (scan_lines bob_game))
                  (color_played (headers (scan_lines bob_game)) "alice").
Proof.
  assert (H : color_played (headers (scan_lines bob_game)) "Bob"
              <> color_played (headers (scan_lines bob_game)) "alice")
    by (vm_compute; discriminate).
  split; [exact H | exact (rating_diff_opposite_sides _ _ _ H)].
Defined.

(** X11. The derived fields of a record agree with each other: the loss
    quality is "N/A" exactly when the folder is not "loss"; a "Quick
    Loss" is always a "Quick" game and a "Well-Fought Loss" never is;
    a "Long" game in the loss folder is always a "Well-Fought Loss";
    the colour is "White" or "Black", the termination type is one of
    the ten categories, and the copied tags are the twelve of the
    output, in their order. *)
Theorem record_fields_agree
        (username folder file : string) (lines : list string) (g : game) :
  analyze_file username folder file lines = Some g ->
  (LossQuality g = "N/A" <-> folder <> "loss") /\
  (LossQuality g = "Quick Loss" -> GameLength g = "Quick") /\
  (LossQuality g = "Well-Fought Loss" -> GameLength g <> "Quick") /\
  (GameLength g = "Long" ->
   LossQuality g = "N/A" \/ LossQuality g = "Well-Fought Loss") /\
  (ColorPlayed g = "White" \/ ColorPlayed g = "Black") /\
  In (TerminationType g) termination_categories /\
  map fst (Tags g) = copied_tags.
Proof.
  unfold analyze_file.
  destruct (parse_pgn lines) as [[hdrs n] |]; [| discriminate].
  cbn [mbind option_bind]. intros [= <-].
  cbn [LossQuality GameLength ColorPlayed TerminationType Tags].
  assert (Hterm : forall t, In (classify_termination t) termination_categories).
  { intros [text |]; [| cbn; tauto].
    destruct text as [| c text]; [cbn; tauto |].
    rewrite classify_termination_keyword by discriminate.
    apply keyword_category_in. }
  split; [| split; [| split; [| split; [| split; [| split]]]]].
  - destruct (String.eqb_spec folder "loss") as [-> | Hne].
    + destruct (loss_quality_cases n) as [[-> _] | [[-> _] | [-> _]]];
        split; intros H; try discriminate H; now destruct H.
    + rewrite (loss_quality_other_folder folder n Hne). now split.
  - destruct (String.eqb_spec folder "loss") as [-> | Hne].
    + destruct (loss_quality_cases n) as [[-> Hn] | [[-> Hn] | [-> Hn]]];
        try discriminate.
      intros _. destruct (game_length_cases n) as [[H _] | [[_ H] | [_ H]]];
        [exact H | lia | lia].
    + rewrite (loss_quality_other_folder folder n Hne). discriminate.
  - destruct (String.eqb_spec folder "loss") as [-> | Hne].
    + destruct (loss_quality_cases n) as [[-> Hn] | [[-> Hn] | [-> Hn]]];
        try discriminate.
      intros _. destruct (game_length_cases n) as [[_ H] | [[-> _] | [-> _]]];
        [lia | discriminate | discriminate].
    + rewrite (loss_quality_other_folder folder n Hne). discriminate.
  - destruct (game_length_cases n) as [[-> _] | [[-> _] | [-> Hn]]];
      try discriminate.
    intros _. destruct (String.eqb_spec folder "loss") as [-> | Hne].
    + destruct (loss_quality_cases n) as [[_ H] | [[_ H] | [-> _]]];
        [lia | lia | now right].
    + left. now apply loss_quality_other_folder.
  - apply color_played_cases.
  - apply Hterm.
  - reflexivity.
Qed.

Lemma record_fields_agree_witness :
  exists g, analyze_file "alice" "loss" "g.pgn" bob_game = Some g /\
            LossQuality g = "Quick Loss" /\ GameLength g = "Quick".
Proof.
  destruct (analyze_file "alice" "loss" "g.pgn" bob_game) as [g |] eqn:Hg;
    [| vm_compute in Hg; discriminate Hg].
  exists g. split; [reflexivity |].
  assert (Hq : LossQuality g = "Quick Loss").
  { pose proof Hg as Hg'. vm_compute in Hg'. now injection Hg' as <-. }
  split; [exact Hq |].
  exact (proj1 (proj2 (record_fields_agree _ _ _ _ g Hg)) Hq).
Defined.

(** * Properties of the downloader *)

(** ** Which folder a game goes to *)

Section ClassifyGame.
Import Fetch.

Lemma equals_str_spec (v : json) (text : string) :
  equals_str v text = true <-> v = JStr text.
Proof.
  destruct v; simpl; try (split; [discriminate | intros [=]]).
  rewrite String.eqb_eq. split; [now intros -> | now intros [= ->]].
Qed.

Lemma in_strs_spec (v : json) (texts : list string) :
  in_strs v texts = true <-> exists s, v = JStr s /\ In s texts.
Proof.
  unfold in_strs. rewrite existsb_exists. split.
  - intros (s & Hin & Heq). apply equals_str_spec in Heq. now exists s.
  - intros (s & -> & Hin). exists s. split; [exact Hin |].
    now apply equals_str_spec.
Qed.

Lemma classify_game_of_outcome (game : json) (username : string) (outcome : json) :
  user_outcome game username outcome ->
  classify_game game username =
    Ok (if equals_str outcome "win" then "win"
        else if in_strs outcome loss_results then "loss"
        else "draw").
Proof.
  intros (m & w & name & -> & Hw & Hname & Hside).
  unfold classify_game, subscript, bind, lower_of. rewrite Hw, Hname.
  destruct Hside as [[Heq Hres] | [Hne (b & Hb & Hres)]].
  - rewrite Heq, String.eqb_refl, Hw, Hres.
    now destruct (equals_str outcome "win"), (in_strs outcome loss_results),
                 (in_strs outcome draw_results).
  - apply String.eqb_neq in Hne. rewrite Hne, Hb, Hres.
    now destruct (equals_str outcome "win"), (in_strs outcome loss_results),
                 (in_strs outcome draw_results).
Qed.

Lemma classify_game_ok (game : json) (username classification : string) :
  classify_game game username = Ok classification ->
  exists outcome, user_outcome game username outcome.
Proof.
  unfold classify_game, subscript, bind, lower_of.
  destruct game as [| | | | | | m]; try discriminate.
  destruct (m !! "white") as [white |] eqn:Hw; [| discriminate].
  destruct white as [| | | | | | w]; try discriminate.
  destruct (w !! "username") as [name |] eqn:Hname; [| discriminate].
  destruct name as [| | | | name | |]; try discriminate.
  destruct (String.eqb_spec (lower name) (lower username)) as [Heq | Hne].
  - rewrite Hw. destruct (w !! "result") as [outcome |] eqn:Hres; [| discriminate].
    intros _. exists outcome, m, w, name. repeat split; try assumption.
    left. now split.
  - destruct (m !! "black") as [black |] eqn:Hb; [| discriminate].
    destruct black as [| | | | | | b]; try discriminate.
    destruct (b !! "result") as [outcome |] eqn:Hres; [| discriminate].
    intros _. exists outcome, m, w, name. repeat split; try assumption.
    right. split; [assumption | now exists b].
Qed.

End ClassifyGame.

(** X12. For a game that records the name of White and the result of
    the side that the user plays, [classify_game] returns "win" when
    that result is "win", "loss" when it is one of "checkmated",
    "timeout", "resigned" and "abandoned", and "draw" for every other
    result, known or not; the name of Black and the result of the other
    side are never looked at. *)
Theorem classify_game_by_user_outcome
        (game : Fetch.json) (username : string) (outcome : Fetch.json) :
  user_outcome game username outcome ->
  Fetch.classify_game game username = Fetch.Ok "win" /\
    outcome = Fetch.JStr "win" \/
  Fetch.classify_game game username = Fetch.Ok "loss" /\
    (exists s, outcome = Fetch.JStr s /\ In s Fetch.loss_results) \/
  Fetch.classify_game game username = Fetch.Ok "draw" /\
    outcome <> Fetch.JStr "win" /\
    (forall s, In s Fetch.loss_results -> outcome <> Fetch.JStr s).
Proof.
  intros H. rewrite (classify_game_of_outcome game username outcome H).
  destruct (Fetch.equals_str outcome "win") eqn:Ewin.
  - left. split; [reflexivity | now apply equals_str_spec].
  - right. destruct (Fetch.in_strs outcome Fetch.loss_results) eqn:Eloss.
    + left. split; [reflexivity | now apply in_strs_spec].
    + right. split; [reflexivity |]. split.
      * intros Heq. apply equals_str_spec in Heq. congruence.
      * intros s Hs Heq.
        assert (Fetch.in_strs outcome Fetch.loss_results = true)
          by (apply in_strs_spec; now exists s).
        congruence.
Qed.

Lemma classify_game_by_user_outcome_witness :
  let black := Fetch.JObj (<["result" := Fetch.JStr "lose"]> ∅) in
  let white := Fetch.JObj (<["username" := Fetch.JStr "Alice"]> ∅) in
  let game := Fetch.JObj (<["white" := white]> (<["black" := black]> ∅)) in
  user_outcome game "bob" (Fetch.JStr "lose") /\
  Fetch.classify_game game "bob" = Fetch.Ok "draw".
Proof.
  intros black white game.
  assert (H : user_outcome game "bob" (Fetch.JStr "lose")).
  { exists (<["white" := white]> (<["black" := black]> ∅)),
           (<["username" := Fetch.JStr "Alice"]> ∅), "Alice".
    split; [reflexivity |]. split; [reflexivity |]. split; [reflexivity |].
    right. split; [discriminate |].
    exists (<["result" := Fetch.JStr "lose"]> ∅). now split. }
  split; [exact H |].
  destruct (classify_game_by_user_outcome game "bob" _ H)
    as [[_ E] | [[_ (s & E & Hs)] | [E _]]].
  - discriminate E.
  - injection E as <-. cbn in Hs. repeat (destruct Hs as [Hs | Hs]; [discriminate Hs |]).
    destruct Hs.
  - exact E.
Defined.

(** X13. When [classify_game] returns, what it returns is one of the
    three folders that [setup_directories] creates, and the game does
    record the name of White and the result of the user's side; for any
    other game it raises. *)
Theorem classify_game_returns_a_folder
        (game : Fetch.json) (username classification : string) :
  Fetch.classify_game game username = Fetch.Ok classification ->
  In classification Fetch.result_types /\
  exists outcome, user_outcome game username outcome.
Proof.
  intros H. destruct (classify_game_ok game username classification H)
    as [outcome Hout].
  split; [| now exists outcome].
  rewrite (classify_game_of_outcome game username outcome Hout) in H.
  destruct (Fetch.equals_str outcome "win");
    [| destruct (Fetch.in_strs outcome Fetch.loss_results)];
    injection H as <-; unfold Fetch.result_types; cbn; auto.
Qed.

Lemma classify_game_returns_a_folder_witness :
  let white := Fetch.JObj (<["username" := Fetch.JStr "Bob"]>
                             (<["result" := Fetch.JStr "resigned"]> ∅)) in
  let game := Fetch.JObj (<["white" := white]> ∅) in
  Fetch.classify_game game "bob" = Fetch.Ok "loss" /\
  In "loss" Fetch.result_types.
Proof.
  intros white game.
  assert (H : Fetch.classify_game game "bob" = Fetch.Ok "loss")
    by (vm_compute; reflexivity).
  split; [exact H |].
  exact (proj1 (classify_game_returns_a_folder game "bob" "loss" H)).
Defined.

(** ** Paths and file names *)

Section Paths.

Lemma contains_slash_cons (c : ascii) (s : string) :
  contains (String c s) "/" = Ascii.eqb "/" c || contains s "/".
Proof. cbn [contains startswith]. now rewrite andb_true_r. Qed.

Lemma contains_slash_append (a b : string) :
  contains (a +:+ b) "/" = contains a "/" || contains b "/".
Proof.
  induction a as [| c a IH]; [reflexivity |].
  rewrite append_cons, !contains_slash_cons, IH. apply orb_assoc.
Qed.

Lemma basename_no_slash (p : string) : contains (basename p) "/" = false.
Proof.
  induction p as [| c p IH]; [reflexivity |]. cbn [basename].
  destruct (contains (String c p) "/") eqn:E; [exact IH | exact E].
Qed.

Lemma basename_plain (name : string) :
  contains name "/" = false -> basename name = name.
Proof. destruct name as [| c name]; [reflexivity |]. cbn [basename]. now intros ->. Qed.

Lemma basename_after_slash (dir name : string) :
  contains name "/" = false -> basename ((dir +:+ "/") +:+ name) = name.
Proof.
  intros Hname. induction dir as [| c dir IH].
  - rewrite append_empty_l.
    change ("/" +:+ name) with (String "/" name). cbn [basename].
    rewrite contains_slash_cons. cbn. now apply basename_plain.
  - rewrite !append_cons. cbn [basename].
    rewrite contains_slash_cons, !contains_slash_append.
    change (contains "/" "/") with true.
    now rewrite orb_true_r, orb_true_r.
Qed.

Lemma endswith_spec (s p : string) :
  endswith s p = true <-> exists a, s = a +:+ p.
Proof.
  induction s as [| c s IH].
  - cbn [endswith]. rewrite orb_false_r, String.eqb_eq. split.
    + intros <-. now exists "".
    + intros [a H]. destruct a; [exact H | discriminate H].
  - cbn [endswith]. rewrite orb_true_iff, IH, String.eqb_eq. split.
    + intros [<- | [a ->]]; [now exists "" | now exists (String c a)].
    + intros [a H]. destruct a as [| x a].
      * left. exact H.
      * right. rewrite append_cons in H. injection H as _ ->. now exists a.
Qed.

Lemma basename_of_join (dir name : string) :
  contains name "/" = false -> basename (path_join2 dir name) = name.
Proof.
  intros Hname. unfold path_join2.
  destruct (startswith name "/") eqn:Es.
  - destruct name as [| c name]; [discriminate Es |].
    rewrite contains_slash_cons in Hname. cbn [startswith] in Es.
    rewrite andb_true_r in Es. now rewrite Es in Hname.
  - destruct dir as [| c dir]; [now apply basename_plain |].
    cbn [is_empty orb].
    destruct (endswith (String c dir) "/") eqn:Ee.
    + apply endswith_spec in Ee as [a ->]. now apply basename_after_slash.
    + rewrite <- append_assoc. now apply basename_after_slash.
Qed.

Lemma split_cases (s : string) :
  contains s "/" = false /\ Fetch.split "/" s = [s] \/
  contains s "/" = true /\
  exists p q qs, Fetch.split "/" s = p :: q :: qs.
Proof.
  induction s as [| c s IH]; [now left |].
  rewrite contains_slash_cons. cbn [Fetch.split].
  rewrite (Ascii.eqb_sym c "/").
  destruct (Ascii.eqb "/" c); cbn [orb].
  - right. split; [reflexivity |].
    destruct IH as [[_ ->] | (_ & p & q & qs & ->)]; eauto.
  - destruct IH as [[-> ->] | (-> & p & q & qs & ->)].
    + now left.
    + right. eauto.
Qed.

Lemma last_split_basename (u : string) :
  default "" (last (Fetch.split "/" u)) = basename u.
Proof.
  induction u as [| c u IH]; [reflexivity |].
  cbn [basename Fetch.split].
  rewrite contains_slash_cons, (Ascii.eqb_sym "/" c), <- IH.
  destruct (Ascii.eqb c "/"); cbn [orb];
    destruct (split_cases u) as [[Hu Hs] | (Hu & p & q & qs & Hs)];
    rewrite ?Hu, Hs; reflexivity.
Qed.

Lemma lower_append (a b : string) : lower (a +:+ b) = lower a +:+ lower b.
Proof.
  induction a as [| c a IH]; [reflexivity |].
  rewrite append_cons. simpl. rewrite append_cons. now f_equal.
Qed.

Lemma pgn_name_is_pgn_file (stem : string) : is_pgn_file (stem +:+ ".pgn") = true.
Proof. unfold is_pgn_file. rewrite lower_append. apply endswith_append. Qed.

Lemma game_id_no_slash (url : Fetch.json) (game_id : string) :
  Fetch.game_id_of url = Fetch.Ok game_id -> contains game_id "/" = false.
Proof.
  unfold Fetch.game_id_of. destruct (Fetch.truthy url).
  - destruct url; try discriminate. intros [= <-].
    rewrite last_split_basename. apply basename_no_slash.
  - now intros [= <-].
Qed.

End Paths.

Section SavedFiles.

Lemma basename_suffix (p : string) :
  exists pre, p = pre +:+ basename p /\ (pre = "" \/ endswith pre "/" = true).
Proof.
  induction p as [| c p (pre & Hp & Hpre)];
    [exists ""; split; [reflexivity | now left] |].
  cbn [basename]. destruct (contains (String c p) "/") eqn:E.
  - exists (String c pre). split; [rewrite append_cons; now f_equal |].
    right. cbn [endswith]. destruct Hpre as [-> | ->]; [| apply orb_true_r].
    rewrite append_empty_l in Hp.
    rewrite contains_slash_cons, Hp, basename_no_slash, orb_false_r in E.
    apply Ascii.eqb_eq in E. now subst c.
  - exists "". split; [reflexivity | now left].
Qed.

Lemma classify_game_range (game : Fetch.json) (username classification : string) :
  Fetch.classify_game game username = Fetch.Ok classification ->
  In classification Fetch.result_types.
Proof.
  intros H. destruct (classify_game_ok game username classification H)
    as [outcome Hout].
  rewrite (classify_game_of_outcome game username outcome Hout) in H.
  destruct (Fetch.equals_str outcome "win");
    [| destruct (Fetch.in_strs outcome Fetch.loss_results)];
    injection H as <-; unfold Fetch.result_types; cbn; auto.
Qed.

Lemma result_type_no_slash (classification : string) :
  In classification Fetch.result_types -> contains classification "/" = false.
Proof.
  intros H. cbn in H.
  repeat (destruct H as [<- | H]; [reflexivity |]). destruct H.
Qed.

Lemma save_path_shape (game : Fetch.json) (classification output_dir path : string) :
  Fetch.save_path game classification output_dir = Fetch.Ok path ->
  exists game_id,
    contains game_id "/" = false /\
    path = path_join2 (path_join2 output_dir classification)
                      (("game_" +:+ game_id) +:+ ".pgn").
Proof.
  unfold Fetch.save_path, Fetch.bind.
  destruct (Fetch.get game "url" (Fetch.JStr "")) as [url | e]; [| discriminate].
  destruct (Fetch.game_id_of url) as [game_id | e] eqn:Eid; [| discriminate].
  intros [= <-]. exists game_id. split; [now apply game_id_no_slash in Eid |].
  cbn [path_join fold_left]. now rewrite append_assoc.
Qed.

Lemma analyze_file_loss_quality
      (username folder file : string) (lines : list string) (g : game) :
  analyze_file username folder file lines = Some g ->
  Folder g = folder /\ Filename g = file /\
  LossQuality g = classify_loss_quality folder (MoveCount g).
Proof.
  unfold analyze_file.
  destruct (parse_pgn lines) as [[hdrs n] |]; [| discriminate].
  cbn [mbind option_bind]. now intros [= <-].
Qed.

End SavedFiles.

(** X14. The identifier that [save_game] takes from a non-empty URL is
    what follows the last slash of the URL (the whole URL when it has
    no slash, nothing when it ends in a slash), so it never contains a
    slash; a game whose URL is missing, empty, null or otherwise false
    gets the identifier "unknown_id". *)
Theorem game_id_is_last_segment :
  (forall u,
      u <> "" ->
      exists pre game_id,
        Fetch.game_id_of (Fetch.JStr u) = Fetch.Ok game_id /\
        u = pre +:+ game_id /\
        (pre = "" \/ endswith pre "/" = true) /\
        contains game_id "/" = false) /\
  (forall url,
      Fetch.truthy url = false ->
      Fetch.game_id_of url = Fetch.Ok "unknown_id").
Proof.
  split.
  - intros u Hne. destruct (basename_suffix u) as (pre & Hu & Hpre).
    exists pre, (basename u). repeat split; try assumption.
    + unfold Fetch.game_id_of. destruct u; [contradiction |].
      cbn [Fetch.truthy is_empty negb]. now rewrite last_split_basename.
    + apply basename_no_slash.
  - intros url H. unfold Fetch.game_id_of. now rewrite H.
Qed.

Lemma game_id_is_last_segment_witness :
  "https://www.chess.com/game/live/123" <> "" /\
  Fetch.game_id_of (Fetch.JStr "https://www.chess.com/game/live/123")
  = Fetch.Ok "123" /\
  Fetch.truthy Fetch.JNull = false /\
  Fetch.game_id_of Fetch.JNull = Fetch.Ok "unknown_id".
Proof.
  assert (Hne : "https://www.chess.com/game/live/123" <> "") by discriminate.
  assert (Hnull : Fetch.truthy Fetch.JNull = false) by reflexivity.
  split; [exact Hne | split; [| split; [exact Hnull |]]].
  - destruct (proj1 game_id_is_last_segment _ Hne) as (pre & id & Hid & _).
    rewrite Hid. vm_compute in Hid. now injection Hid as <-.
  - exact (proj2 game_id_is_last_segment _ Hnull).
Defined.

(** X15. A game that the downloader classifies and saves is found again
    by the analyser: the file name ends in ".pgn", so the walk of the
    output directory reads the file in the directory of its
    classification, and whenever the analysis of the file completes,
    its outcome is one record that carries that classification as its
    folder, so that its loss quality is "N/A" exactly when the game was
    not classified as a loss. *)
Theorem saved_game_is_analysed
        (game : Fetch.json) (user classification output_dir path : string)
        (analyst : string) :
  Fetch.classify_game game user = Fetch.Ok classification ->
  Fetch.save_path game classification output_dir = Fetch.Ok path ->
  exists root file,
    root = path_join output_dir [classification] /\
    path = path_join root [file] /\
    is_pgn_file file = true /\
    forall lines games,
      analyze_files analyst root [(file, lines)] = Some games ->
      exists g,
        games = [g] /\
        Filename g = file /\ Folder g = classification /\
        (LossQuality g = "N/A" <-> classification <> "loss").
Proof.
  intros Hclass Hpath.
  apply classify_game_range, result_type_no_slash in Hclass.
  apply save_path_shape in Hpath as (game_id & Hid & ->).
  set (root := path_join2 output_dir classification).
  set (file := ("game_" +:+ game_id) +:+ ".pgn").
  assert (Hpgn : is_pgn_file file = true) by apply pgn_name_is_pgn_file.
  exists root, file. repeat split; try assumption.
  intros lines games. cbn [analyze_files]. rewrite Hpgn.
  destruct (analyze_file analyst (basename root) file lines) as [g |] eqn:Hg;
    [| discriminate].
  cbn. intros [= <-].
  destruct (analyze_file_loss_quality _ _ _ _ g Hg) as (Hfolder & Hfile & Hq).
  unfold root in Hfolder, Hq. rewrite (basename_of_join _ _ Hclass) in Hfolder, Hq.
  exists g. repeat split; try assumption.
  - intros HNA Hloss. rewrite Hq, Hloss in HNA.
    destruct (loss_quality_cases (MoveCount g)) as [[E _] | [[E _] | [E _]]];
      rewrite E in HNA; discriminate HNA.
  - intros Hne. rewrite Hq. now apply loss_quality_other_folder.
Qed.

Lemma saved_game_is_analysed_witness :
  let white := Fetch.JObj (<["username" := Fetch.JStr "Bob"]>
                             (<["result" := Fetch.JStr "timeout"]> ∅)) in
  let game := Fetch.JObj (<["white" := white]>
                (<["url" := Fetch.JStr "https://www.chess.com/game/live/77"]> ∅)) in
  Fetch.classify_game game "bob" = Fetch.Ok "loss" /\
  Fetch.save_path game "loss" "chess_games"
  = Fetch.Ok "chess_games/loss/game_77.pgn" /\
  exists root file,
    root = path_join "chess_games" ["loss"] /\
    "chess_games/loss/game_77.pgn" = path_join root [file] /\
    is_pgn_file file = true /\
    forall lines games,
      analyze_files "bob" root [(file, lines)] = Some games ->
      exists g,
        games = [g] /\
        Filename g = file /\ Folder g = "loss" /\
        (LossQuality g = "N/A" <-> "loss" <> "loss").
Proof.
  intros white game.
  assert (Hc : Fetch.classify_game game "bob" = Fetch.Ok "loss")
    by (vm_compute; reflexivity).
  assert (Hp : Fetch.save_path game "loss" "chess_games"
               = Fetch.Ok "chess_games/loss/game_77.pgn")
    by (vm_compute; reflexivity).
  split; [exact Hc | split; [exact Hp |]].
  exact (saved_game_is_analysed game "bob" "loss" "chess_games" _ "bob" Hc Hp).
Defined.

(** ** What saving writes *)



(** X17. Games without a URL share one file name: when two of them are
    saved under the same classification, both calls return true, so
    both games are counted, but only the PGN of the second is left on
    disk. *)
Theorem saves_without_url_collide
        (m1 m2 : gmap string Fetch.json) (text1 text2 : string)
        (classification output_dir : string) (files : gmap string string) :
  Fetch.truthy (default (Fetch.JStr "") (m1 !! "url")) = false ->
  Fetch.truthy (default (Fetch.JStr "") (m2 !! "url")) = false ->
  m1 !! "pgn" = Some (Fetch.JStr text1) -> text1 <> "" ->
  m2 !! "pgn" = Some (Fetch.JStr text2) -> text2 <> "" ->
  let path := path_join output_dir [classification; "game_unknown_id.pgn"] in
  let '(files1, outcome1) :=
    Fetch.save_game (Fetch.JObj m1) classification output_dir files in
  let '(files2, outcome2) :=
    Fetch.save_game (Fetch.JObj m2) classification output_dir files1 in
  outcome1 = Fetch.Ok true /\ outcome2 = Fetch.Ok true /\
  files2 = <[path := text2]> files.
Proof.
  intros Hu1 Hu2 Hp1 Hne1 Hp2 Hne2 path.
  unfold Fetch.save_game, Fetch.save_path, Fetch.bind, Fetch.get,
    Fetch.game_id_of.
  rewrite Hu1, Hu2, Hp1, Hp2. cbn [default Fetch.truthy].
  destruct text1 as [| c1 t1]; [contradiction |].
  destruct text2 as [| c2 t2]; [contradiction |].
  cbn [is_empty negb]. repeat split.
  apply insert_insert_eq.
Qed.

Lemma saves_without_url_collide_witness :
  let m1 : gmap string Fetch.json := <["pgn" := Fetch.JStr "first"]> ∅ in
  let m2 : gmap string Fetch.json :=
    <["pgn" := Fetch.JStr "second"]> (<["url" := Fetch.JNull]> ∅) in
  let '(files1, outcome1) := Fetch.save_game (Fetch.JObj m1) "draw" "out" ∅ in
  let '(files2, outcome2) := Fetch.save_game (Fetch.JObj m2) "draw" "out" files1 in
  outcome1 = Fetch.Ok true /\ outcome2 = Fetch.Ok true /\
  files2 = <["out/draw/game_unknown_id.pgn" := "second"]> ∅.
Proof.
  intros m1 m2.
  apply (saves_without_url_collide m1 m2 "first" "second" "draw" "out" ∅);
    first [reflexivity | discriminate].
Defined.

(** ** The loop over the games of an archive *)

Section Counting.

Lemma handle_game_count (username output_dir : string) (game : Fetch.json)
      (files files' : gmap string string) (count count' : Z)
      (e : option Fetch.exn) :
  Fetch.handle_game username output_dir game files count = (files', count', e) ->
  count' = count \/ count' = count + 1 /\ e = None.
Proof.
  unfold Fetch.handle_game.
  destruct (Fetch.get game "time_class" Fetch.JNull) as [tc | x];
    [| intros [= _ <- _]; now left].
  destruct (Fetch.equals_str tc "rapid"); [| intros [= _ <- _]; now left].
  destruct (Fetch.classify_game game username) as [c | x];
    [| intros [= _ <- _]; now left].
  destruct (Fetch.save_game game c output_dir files) as [f [[] | x]];
    intros [= _ <- <-]; auto.
Qed.

End Counting.

(** X18. The loop over the games of an archive never lowers the count
    and never takes it past the target: the count after the loop lies
    between the count before it and the larger of that count and the
    target, and grows by at most one for each game of the list; when
    the target is already reached, the loop changes nothing. *)
Theorem handle_games_respects_target
        (target_count : Z) (username output_dir : string)
        (games : list Fetch.json)
        (files files' : gmap string string) (count count' : Z)
        (e : option Fetch.exn) :
  Fetch.handle_games target_count username output_dir games files count
  = (files', count', e) ->
  count <= count' <= Z.max count target_count /\
  count' - count <= Z.of_nat (length games) /\
  (target_count <= count -> files' = files /\ count' = count /\ e = None).
Proof.
  revert files count. induction games as [| game games IH]; intros files count.
  - cbn. intros [= <- <- <-]. repeat split; lia.
  - cbn [Fetch.handle_games length].
    destruct (Z.leb_spec target_count count) as [Hreached | Hbelow].
    + intros [= <- <- <-]. repeat split; lia.
    + destruct (Fetch.handle_game username output_dir game files count)
        as [[files1 count1] e1] eqn:Estep.
      apply handle_game_count in Estep.
      destruct e1 as [x |].
      * intros [= <- <- <-]. destruct Estep as [-> | [_ [=]]].
        repeat split; lia.
      * intros Hrest. apply IH in Hrest as (Hbound & Hlen & _).
        repeat split; lia.
Qed.

Lemma handle_games_respects_target_witness :
  let game := Fetch.JObj (<["time_class" := Fetch.JStr "rapid"]>
                (<["pgn" := Fetch.JStr "1. e4"]>
                (<["white" := Fetch.JObj (<["username" := Fetch.JStr "bob"]>
                                            (<["result" := Fetch.JStr "win"]> ∅))]> ∅))) in
  let after := Fetch.handle_games 2 "bob" "out" [game; game; game] ∅ 0 in
  snd (fst after) = 2 /\ 0 <= snd (fst after) <= Z.max 0 2.
Proof.
  intros game after.
  split; [vm_compute; reflexivity |].
  destruct after as [[files' count'] e] eqn:E.
  exact (proj1 (handle_games_respects_target _ _ _ _ _ _ _ _ _ E)).
Defined.

(** X19. Games that are not rapid games are never saved: on a list of
    JSON objects none of which has the time class "rapid", the loop
    leaves the files and the count as they were and raises nothing,
    whatever else the games contain. *)
Theorem handle_games_skips_other_time_classes
        (target_count : Z) (username output_dir : string)
        (games : list Fetch.json) (files : gmap string string) (count : Z) :
  none_rapid games ->
  Fetch.handle_games target_count username output_dir games files count
  = (files, count, None).
Proof.
  induction 1 as [| game games (m & -> & Hm) _ IH]; [reflexivity |].
  cbn [Fetch.handle_games].
  destruct (target_count <=? count); [reflexivity |].
  unfold Fetch.handle_game, Fetch.get. now rewrite Hm.
Qed.

Lemma handle_games_skips_other_time_classes_witness :
  let blitz := Fetch.JObj (<["time_class" := Fetch.JStr "blitz"]>
                 (<["pgn" := Fetch.JStr "1. d4"]> ∅)) in
  let untimed := Fetch.JObj (<["pgn" := Fetch.JStr "1. c4"]> ∅) in
  none_rapid [blitz; untimed] /\
  Fetch.handle_games 5 "bob" "out" [blitz; untimed] ∅ 0 = (∅, 0, None).
Proof.
  intros blitz untimed.
  assert (H : none_rapid [blitz; untimed]).
  { constructor; [| constructor; [| constructor]].
    - exists (<["time_class" := Fetch.JStr "blitz"]>
                (<["pgn" := Fetch.JStr "1. d4"]> ∅)). now split.
    - exists (<["pgn" := Fetch.JStr "1. c4"]> ∅). now split. }
  split; [exact H |].
  exact (handle_games_skips_other_time_classes 5 "bob" "out" _ ∅ 0 H).
Defined.
